(** * pambox: adaptive speech-reception-threshold experiments

    A shallow embedding of the parts of [pambox/general.py] and
    [pambox/speech/experiment.py] that carry the level setting, the
    threshold-crossing extraction and the adaptive staircase.

    Conventions of the embedding:
    - Python floats and float64 numpy arrays are IEEE binary64 numbers:
      [float] (Rocq's primitive floats) and [list float].
    - Python ints are [Z]; sequence lengths are [nat].
    - A Python exception is [Raise e]; a [while] loop runs on fuel and
      answers [OutOfFuel] when the fuel is used up before the guard fails.
    - Random number generation, the speech material and the intelligibility
      models act on an explicit [World] that is threaded through the calls.
    - A Python [dict] that is only written by key is a [gmap]; a dict that is
      iterated is an association list in its iteration order. *)

From Stdlib Require Import Floats ZArith Lia Uint63.
From stdpp Require Import gmap strings list fin_maps.

Local Open Scope Z_scope.

(** ** Exceptions and outcomes *)

Inductive exn : Type :=
| ValueError (msg : string)
| IndexError
| KeyError (key : string)
| TypeError (msg : string)
| UnboundLocalError (var : string).

Inductive outcome (A : Type) : Type :=
| Ok (a : A)
| Raise (e : exn)
| OutOfFuel.

Arguments Ok {A} a.
Arguments Raise {A} e.
Arguments OutOfFuel {A}.

#[global] Instance outcome_ret : MRet outcome := @Ok.

#[global] Instance outcome_bind : MBind outcome := λ A B f m,
  match m with
  | Ok a => f a
  | Raise e => Raise e
  | OutOfFuel => OutOfFuel
  end.

(** ** Python and numpy primitives *)

Abbreviation Signal := (list float).

Definition float_of_nat (n : nat) : float :=
  PrimFloat.of_uint63 (Uint63.of_Z (Z.of_nat n)).

(** [seq[i]] on a tuple, list or 1-d array: negative indices count from
    the end, anything out of range raises [IndexError]. *)
Definition py_getitem {A} (l : list A) (i : Z) : outcome A :=
  let n := Z.of_nat (length l) in
  let j := if i <? 0 then i + n else i in
  if (0 <=? j) && (j <? n) then
    match l !! Z.to_nat j with
    | Some a => Ok a
    | None => Raise IndexError
    end
  else Raise IndexError.

(** [seq[start:]] *)
Definition py_slice_from {A} (start : Z) (l : list A) : list A :=
  let n := Z.of_nat (length l) in
  let s := if start <? 0 then Z.max (start + n) 0 else Z.min start n in
  drop (Z.to_nat s) l.

(** [d[key]] on a dict kept in iteration order. *)
Fixpoint dict_getitem {V} (d : list (string * V)) (key : string) : outcome V :=
  match d with
  | [] => Raise (KeyError key)
  | (k, v) :: d' => if String.eqb k key then Ok v else dict_getitem d' key
  end.

(** [np.add.reduce] on a 1-d array, accumulated from the left. (numpy sums
    long arrays pairwise; the two agree up to rounding and agree exactly on
    which sums are zero.) *)
Definition np_sum (x : Signal) : float :=
  fold_left PrimFloat.add x 0%float.

(** [np.mean]: an empty array gives [0/0 = nan]. *)
Definition np_mean (x : Signal) : float :=
  (np_sum x / float_of_nat (length x))%float.

(** [np.linalg.norm(x, axis=-1)] on a 1-d array. *)
Definition np_linalg_norm (x : Signal) : float :=
  PrimFloat.sqrt (np_sum (map (λ v, v * v)%float x)).

(** [a + b] on two 1-d arrays, with numpy's broadcasting of a length-1
    operand. *)
Definition np_add (a b : Signal) : outcome Signal :=
  if (length a =? length b)%nat then Ok (zip_with PrimFloat.add a b)
  else match a, b with
       | [u], _ => Ok (map (λ v, u + v)%float b)
       | _, [u] => Ok (map (λ v, v + u)%float a)
       | _, _ => Raise (ValueError "operands could not be broadcast together")
       end.

(** [np.diff] on a boolean array: [out[i] = a[i+1] != a[i]]. *)
Fixpoint np_diff_bool (a : list bool) : list bool :=
  match a with
  | u :: (v :: _) as a' => xorb v u :: np_diff_bool a'
  | _ => []
  end.

(** [np.nonzero(a)[0]], the indices of the true entries, counted from [i]. *)
Fixpoint np_nonzero_from (i : Z) (a : list bool) : list Z :=
  match a with
  | [] => []
  | u :: a' =>
      if u then i :: np_nonzero_from (i + 1) a' else np_nonzero_from (i + 1) a'
  end.

Definition np_nonzero (a : list bool) : list Z := np_nonzero_from 0 a.

(** [bool(a)] for an integer array: empty is false, one element is that
    element's truth value, more elements raise. *)
Definition ndarray_bool (a : list Z) : outcome bool :=
  match a with
  | [] => Ok false
  | [v] => Ok (negb (v =? 0))
  | _ => Raise (ValueError "The truth value of an array with more than one element is ambiguous. Use a.any() or a.all()")
  end.

(** ** A stand-in for the C library's [pow]

    [10. ** e] in [setdbspl] is libm's [pow], which is outside the sources.
    The definitions below take it as a parameter; [pow_series] is a series
    approximation used where a concrete function is needed. It is exact at
    exponent zero. *)

Fixpoint atanh_series (k : nat) (z2 pw d acc : float) : float :=
  match k with
  | O => acc
  | S k' => atanh_series k' z2 (pw * z2) (d + 2) (acc + pw / d)
  end%float.

Definition ln_series (b : float) : float :=
  let '(m, e) := PrimFloat.frshiftexp b in
  let z := ((m - 1) / (m + 1))%float in
  (2 * atanh_series 30 (z * z) z 1 0
   + (PrimFloat.of_uint63 e - 2101) * 0x1.62e42fefa39efp-1)%float.

Fixpoint exp_taylor (k : nat) (y term i acc : float) : float :=
  match k with
  | O => acc
  | S k' =>
      let term' := (term * y / i)%float in
      exp_taylor k' y term' (i + 1)%float (acc + term')%float
  end.

Fixpoint repeat_square (k : nat) (v : float) : float :=
  match k with
  | O => v
  | S k' => repeat_square k' (v * v)%float
  end.

Definition exp_series (y : float) : float :=
  repeat_square 10 (exp_taylor 20 (y / 1024)%float 1%float 1%float 1%float).

Definition pow_series (b e : float) : float :=
  exp_series (e * ln_series b)%float.

(** ** pambox/general.py *)

Section General.

Variable pow : float → float → float.

(** [rms(x, ac=False, axis=-1)] on a 1-d signal. *)
Definition rms (x : Signal) (ac : bool) : float :=
  let n := PrimFloat.sqrt (float_of_nat (length x)) in
  if ac then
    let m := np_mean x in
    np_linalg_norm (map (λ v, (v - m) / n)%float x)
  else
    np_linalg_norm (map (λ v, v / n)%float x).

(** [setdbspl(x, lvl, ac=False, offset=100.0)]. No statement of the source
    raises, and numpy's division by zero yields [nan] or an infinity. *)
Definition setdbspl (x : Signal) (lvl : float) (ac : bool) (offset : float)
  : Signal :=
  let r := rms x ac in
  let g := pow 10%float ((lvl - offset) / 20)%float in
  map (λ v, v / r * g)%float x.

(** [make_same_length(a, b, extend_first=True)] *)
Definition make_same_length (a b : Signal) (extend_first : bool)
  : Signal * Signal :=
  if (length a <? length b)%nat then
    if extend_first then
      (map (λ v, 0 + v)%float a
         ++ replicate (length b - length a)%nat 0%float, b)
    else (a, take (length a) b)
  else
    (a, map (λ v, 0 + v)%float b
          ++ replicate (length a - length b)%nat 0%float).

(** What [int2srt] can return: [None], the scalar [x[0]], or the array of
    interpolated crossings. *)
Inductive srt_result : Type :=
| SrtNone
| SrtScalar (v : float)
| SrtArray (v : list float).

(** One entry of
    [x[idx] + (srt - y[idx]) * (x[idx + 1] - x[idx]) / (y[idx + 1] - y[idx])]. *)
Definition interpolate (x y : Signal) (srt : float) (i : Z) : outcome float :=
  xi ← py_getitem x i;
  yi ← py_getitem y i;
  xi1 ← py_getitem x (i + 1);
  yi1 ← py_getitem y (i + 1);
  Ok (xi + (srt - yi) * (xi1 - xi) / (yi1 - yi))%float.

Fixpoint interpolate_all (x y : Signal) (srt : float) (idx : list Z)
  : outcome (list float) :=
  match idx with
  | [] => Ok []
  | i :: idx' =>
      v ← interpolate x y srt i;
      vs ← interpolate_all x y srt idx';
      Ok (v :: vs)
  end.

(** [idx = np.nonzero(np.diff(y >= srt))[0]] *)
Definition crossings (y : Signal) (srt : float) : list Z :=
  np_nonzero (np_diff_bool (map (λ v, srt <=? v)%float y)).

(** [int2srt(x, y, srt=50.0)] *)
Definition int2srt (x y : Signal) (srt : float) : outcome srt_result :=
  if negb (length x =? length y)%nat then
    Raise (ValueError "Inputs of different lenghts.")
  else
    let idx := crossings y srt in
    b ← ndarray_bool idx;
    c ← (if negb b then y0 ← py_getitem y 0; Ok (y0 =? srt)%float
         else Ok false);
    if c : bool then
      x0 ← py_getitem x 0; Ok (SrtScalar x0)
    else if (1 <=? length idx)%nat then
      v ← interpolate_all x y srt idx; Ok (SrtArray v)
    else Ok SrtNone.

End General.

(** ** pambox/speech/experiment.py

    The module imports [make_same_length], [setdbspl] and [int2srt] from the
    package's utilities; they are the functions of [general.py] above. *)

(** Values that distortion parameters are made of. *)
Inductive pyval : Type :=
| PyNone
| PyBool (b : bool)
| PyInt (z : Z)
| PyFloat (f : float)
| PyStr (s : string).

(** One entry of [dist_params]: [None], a dict of keyword arguments, or a
    tuple or list of positional arguments. *)
Inductive Params : Type :=
| ParamsNone
| ParamsDict (kw : list (string * pyval))
| ParamsTuple (args : list pyval)
| ParamsList (args : list pyval).

(** [if params:] *)
Definition params_truth (params : Params) : bool :=
  match params with
  | ParamsNone => false
  | ParamsDict kw => negb (bool_decide (kw = []))
  | ParamsTuple args | ParamsList args => negb (bool_decide (args = []))
  end.

(** What a model's [predict] returns: a dict whose ['p'] entry maps output
    names to values. *)
Record ModelOutput : Type := { p : list (string * float) }.

(** A cell of the result table. *)
Inductive cell : Type :=
| CellFloat (f : float)
| CellInt (z : Z)
| CellStr (s : string)
| CellPy (v : pyval)
| CellParams (params : Params)
| CellPrediction (r : ModelOutput).

(** A table is the list of the dicts appended to it, in their order. pandas
    shows a column that an appended dict does not have as a NaN cell of its
    row, and may then store an int of that column as a float; the rows here
    are the dicts as they were appended. *)
Abbreviation Row := (gmap string cell).
Abbreviation DataFrame := (list (gmap string cell)).

Definition _key_full_pred : string := "Full Prediction".
Definition _key_value : string := "Value".
Definition _key_output : string := "Output".
Definition _key_dist_params : string := "Distortion params".
Definition _key_models : string := "Model".
Definition _key_snr : string := "SNR".
Definition _key_material : string := "Material".
Definition _key_sent : string := "Sentence number".

Section Experiment.

Context {World : Type}.

(** An intelligibility model: its [name] (or class name) and [predict]. *)
Record Model : Type := {
  model_name : string;
  predict : Signal → Signal → Signal → World → ModelOutput * World
}.

(** The speech material: [name], [load_files(n)] and [ssn(target)]. *)
Record Material : Type := {
  material_name : string;
  load_files : option nat → World → list Signal * World;
  ssn : Signal → World → Signal * World
}.

(** The attributes set by [Experiment.__init__]. *)
Record Experiment : Type := {
  models : list Model;
  material : Material;
  snrs : list float;
  distortion : option (Signal → Signal → Params → outcome (Signal * Signal));
  dist_params : list Params;
  fixed_level : float;
  fixed_target : bool;
  name : option string;
  write : bool;
  output_path : string;
  timestamp_format : string;
  adjust_levels_bef_proc : bool
}.

(** [AdaptiveExperiment(Experiment)] *)
Record AdaptiveExperiment : Type := {
  base :> Experiment;
  pred_keys_and_thresholds : list (string * float);
  start_snr : float;
  step_sizes : list float;
  n_test_reversals : Z;
  change_step_on : Z
}.

(** [AdaptiveExperiment.__init__]: stores its own five parameters and hands
    the remaining keyword arguments to [Experiment.__init__]. *)
Definition AdaptiveExperiment_init
    (pred_keys_and_thresholds : list (string * float))
    (start_snr : float) (step_sizes : list float)
    (n_test_reversals : Z) (change_step_on : Z)
    (kwargs : Experiment) : AdaptiveExperiment :=
  {| base := kwargs;
     pred_keys_and_thresholds := pred_keys_and_thresholds;
     start_snr := start_snr;
     step_sizes := step_sizes;
     n_test_reversals := n_test_reversals;
     change_step_on := change_step_on |}.

Variable pow : float → float → float.
Variable np_random_seed : Z → World → World.

(** [Experiment.adjust_levels] *)
Definition adjust_levels (self : Experiment) (target masker : Signal)
    (snr : float) : Signal * Signal :=
  let target_level := fixed_level self in
  let masker_level := fixed_level self in
  let '(target_level, masker_level) :=
    if fixed_target self then (target_level, (masker_level - snr)%float)
    else ((target_level + snr)%float, masker_level) in
  let target := setdbspl pow target target_level false 100%float in
  let masker := setdbspl pow masker masker_level false 100%float in
  (target, masker).

(** [Experiment.preprocessing] *)
Definition preprocessing (self : Experiment) (target masker : Signal)
    (snr : float) (params : Params) : outcome (Signal * Signal * Signal) :=
  let '(target, masker) :=
    if negb (length target =? length masker)%nat
    then make_same_length target masker false
    else (target, masker) in
  let '(target, masker) :=
    if adjust_levels_bef_proc self then adjust_levels self target masker snr
    else (target, masker) in
  '(target, masker) ←
    (if params_truth params then
       match distortion self with
       | Some f => f target masker params
       | None => Raise (TypeError "'NoneType' object is not callable")
       end
     else Ok (target, masker));
  let '(target, masker) :=
    if negb (adjust_levels_bef_proc self)
    then adjust_levels self target masker snr
    else (target, masker) in
  mix ← np_add target masker;
  Ok (target, mix, masker).

(** [Experiment.next_masker] *)
Definition next_masker (self : Experiment) (target : Signal) (params : Params)
    (w : World) : Signal * World :=
  ssn (material self) target w.

(** [Experiment.prediction] *)
Definition prediction (model : Model) (target mix masker : Signal) (w : World)
  : ModelOutput * World :=
  predict model target mix masker w.

(** [Experiment.append_results]. The keyword arguments collected in
    [**kwargs] are accepted; the body does not mention them. *)
Definition append_results (self : Experiment) (df : DataFrame)
    (res : ModelOutput) (model : Model) (snr : float) (i_target : Z)
    (params : Params) (kwargs : list (string * cell)) : DataFrame :=
  let d : gmap string cell :=
    <[_key_material := CellStr (material_name (material self))]>
    (<[_key_full_pred := CellPrediction res]>
    (<[_key_sent := CellInt i_target]>
    (<[_key_models := CellStr (model_name model)]>
    (<[_key_snr := CellFloat snr]> ∅)))) in
  let d :=
    match params with
    | ParamsDict kw =>
        fold_left (λ d kv, <[kv.1 := CellPy kv.2]> d) kw d
    | ParamsList args => <[_key_dist_params := CellParams (ParamsTuple args)]> d
    | _ => <[_key_dist_params := CellParams params]> d
    end in
  (fold_left
     (λ acc nv,
        let d := <[_key_value := CellFloat nv.2]>
                 (<[_key_output := CellStr nv.1]> acc.2) in
        (acc.1 ++ [d], d))
     (p res) (df, d)).1.

(** The local variables of [AdaptiveExperiment.run] that live across the
    iterations of the [while] loop. [res] is unbound until the loop body has
    run once. *)
Record Locals : Type := {
  target : Signal;
  masker : Signal;
  test_reversals : Z;
  total_reversals : Z;
  snr : float;
  last_reversal_sign : Z;
  i_step : Z;
  all_res : list (float * float);
  res : option ModelOutput
}.

(** Lines 743-749: the locals before the loop. [target] and [masker] are the
    group's signals; [res] is whatever an earlier group left behind. *)
Definition staircase_init (self : AdaptiveExperiment) (target0 masker0 : Signal)
    (res_prev : option ModelOutput) : Locals :=
  {| target := target0; masker := masker0;
     test_reversals := 0; total_reversals := 0;
     snr := start_snr self; last_reversal_sign := -1;
     i_step := 0; all_res := []; res := res_prev |}.

(** Lines 763-787: the bookkeeping of one iteration, once [pred] is read. *)
Definition update (self : AdaptiveExperiment) (threshold pred : float)
    (st : Locals) : outcome Locals :=
  let all_res' := all_res st ++ [(snr st, pred)] in
  let last := Z.of_nat (length (step_sizes self)) - 1 in
  if (threshold <=? pred)%float then
    step ← py_getitem (step_sizes self) (i_step st);
    let snr' := (snr st - step)%float in
    if 0 <? last_reversal_sign st then
      let i_step' := Z.min (i_step st + 1) last in
      let test_reversals' :=
        if i_step' =? last then test_reversals st + 1 else test_reversals st in
      Ok {| target := target st; masker := masker st;
            test_reversals := test_reversals';
            total_reversals := total_reversals st + 1;
            snr := snr'; last_reversal_sign := -1;
            i_step := i_step'; all_res := all_res'; res := res st |}
    else
      Ok {| target := target st; masker := masker st;
            test_reversals := test_reversals st;
            total_reversals := total_reversals st + 1;
            snr := snr'; last_reversal_sign := last_reversal_sign st;
            i_step := i_step st; all_res := all_res'; res := res st |}
  else
    step ← py_getitem (step_sizes self) (i_step st);
    let snr' := (snr st + step)%float in
    if last_reversal_sign st <? 0 then
      let test_reversals' :=
        if i_step st =? last then test_reversals st + 1
        else test_reversals st in
      Ok {| target := target st; masker := masker st;
            test_reversals := test_reversals';
            total_reversals := total_reversals st + 1;
            snr := snr'; last_reversal_sign := 1;
            i_step := i_step st; all_res := all_res'; res := res st |}
    else
      Ok {| target := target st; masker := masker st;
            test_reversals := test_reversals st;
            total_reversals := total_reversals st + 1;
            snr := snr'; last_reversal_sign := last_reversal_sign st;
            i_step := i_step st; all_res := all_res'; res := res st |}.

(** Lines 752-761: preprocess, predict, read the named output. The results
    of [preprocessing] are assigned to [target] and [masker] themselves. *)
Definition evaluate (self : AdaptiveExperiment) (model : Model)
    (pred_key : string) (params : Params) (st : Locals) (w : World)
  : outcome (Locals * float * World) :=
  '(target', mix, masker') ←
    preprocessing self (target st) (masker st) (snr st) params;
  let '(r, w') := prediction model target' mix masker' w in
  pred ← dict_getitem (p r) pred_key;
  Ok ({| target := target'; masker := masker';
         test_reversals := test_reversals st;
         total_reversals := total_reversals st;
         snr := snr st; last_reversal_sign := last_reversal_sign st;
         i_step := i_step st; all_res := all_res st; res := Some r |},
      pred, w').

(** The body of the [while] loop. *)
Definition loop_body (self : AdaptiveExperiment) (model : Model)
    (pred_key : string) (threshold : float) (params : Params)
    (st : Locals) (w : World) : outcome (Locals * World) :=
  '(st1, pred, w') ← evaluate self model pred_key params st w;
  st2 ← update self threshold pred st1;
  Ok (st2, w').

(** [while test_reversals <= self.n_test_reversals: ...] *)
Fixpoint while_loop (fuel : nat) (self : AdaptiveExperiment) (model : Model)
    (pred_key : string) (threshold : float) (params : Params)
    (st : Locals) (w : World) : outcome (Locals * World) :=
  if test_reversals st <=? n_test_reversals self then
    match fuel with
    | O => OutOfFuel
    | S fuel' =>
        '(st', w') ← loop_body self model pred_key threshold params st w;
        while_loop fuel' self model pred_key threshold params st' w'
    end
  else Ok (st, w).

(** [np.mean([each[0] for each in all_res[-self.n_test_reversals:]])] *)
Definition srt_of (self : AdaptiveExperiment) (st : Locals) : float :=
  np_mean (map fst (py_slice_from (- n_test_reversals self) (all_res st))).

(** One element of the product the [for] loop runs over. *)
Definition Group : Type := (Z * Signal) * Params * (Model * (string * float)).

(** One pass through the body of the [for] loop. Besides the table it
    returns the locals at the exit of the [while] loop and the [srt]
    computed from them, the values handed to [append_results]. *)
Definition run_group (fuel : nat) (self : AdaptiveExperiment) (g : Group)
    (df : DataFrame) (res_prev : option ModelOutput) (w : World)
  : outcome (DataFrame * Locals * float * World) :=
  let '((i_target, target0), params, (model, (pred_key, threshold))) := g in
  let '(masker0, w) := next_masker self target0 params w in
  '(st, w) ← while_loop fuel self model pred_key threshold params
               (staircase_init self target0 masker0 res_prev) w;
  let srt := srt_of self st in
  r ← (match res st with
       | Some r => Ok r
       | None => Raise (UnboundLocalError "res")
       end);
  Ok (append_results self df r model (snr st) i_target params
        [("SRT"%string, CellFloat srt);
         ("Reversals"%string, CellInt (total_reversals st))],
      st, srt, w).

Fixpoint run_groups (fuel : nat) (self : AdaptiveExperiment)
    (groups : list Group) (df : DataFrame) (res_prev : option ModelOutput)
    (trace : list (Locals * float)) (w : World)
  : outcome (DataFrame * list (Locals * float) * World) :=
  match groups with
  | [] => Ok (df, trace, w)
  | g :: groups' =>
      '(df', st, srt, w') ← run_group fuel self g df res_prev w;
      run_groups fuel self groups' df' (res st) (trace ++ [(st, srt)]) w'
  end.

(** [enumerate] and [itertools.product] of three iterables. *)
Definition enumerate {A} (l : list A) : list (Z * A) :=
  imap (λ i a, (Z.of_nat i, a)) l.

Definition product3 {A B C} (a : list A) (b : list B) (c : list C)
  : list (A * B * C) :=
  flat_map (λ x, flat_map (λ y, map (λ z, (x, y, z)) c) b) a.

Definition groups_of (self : AdaptiveExperiment) (targets : list Signal)
  : list Group :=
  product3 (enumerate targets) (dist_params self)
    (zip (models self) (pred_keys_and_thresholds self)).

(** [AdaptiveExperiment.run], together with the per-group trace of
    [run_group]. Each [while] loop gets [fuel] iterations. *)
Definition run_traced (fuel : nat) (self : AdaptiveExperiment)
    (n : option nat) (seed : Z) (w : World)
  : outcome (DataFrame * list (Locals * float) * World) :=
  let w := np_random_seed seed w in
  let '(targets, w) := load_files (material self) n w in
  run_groups fuel self (groups_of self targets) [] None [] w.

(** [AdaptiveExperiment.run(n, seed, parallel)]: the table it returns. *)
Definition run (fuel : nat) (self : AdaptiveExperiment) (n : option nat)
    (seed : Z) (parallel : bool) (w : World) : outcome DataFrame :=
  '(df, _, _) ← run_traced fuel self n seed w;
  Ok df.

(** What holds of a group's trace entry: the locals at the exit of its loop
    and the [srt] computed from them. *)
Definition trace_ok (self : AdaptiveExperiment) (e : Locals * float)
  : Prop :=
  test_reversals e.1 = n_test_reversals self + 1
  ∧ e.2 = srt_of self e.1
  ∧ n_test_reversals self + 1 ≤ Z.of_nat (length (all_res e.1))
  ∧ total_reversals e.1 = Z.of_nat (length (all_res e.1)).

End Experiment.

Arguments Model : clear implicits.
Arguments Material : clear implicits.
Arguments Experiment : clear implicits.
Arguments AdaptiveExperiment : clear implicits.

(** ** Specification vocabulary for the crossing extractor *)

(** [xs[i]] for an index known to be in range. *)
Definition item (l : Signal) (i : Z) : float := nth (Z.to_nat i) l nan.

(** In the spec's words: [i] is an index where
    [(ys[i] >= target) != (ys[i+1] >= target)]. *)
Definition is_crossing (ys : Signal) (target : float) (i : Z) : Prop :=
  0 ≤ i ∧ i + 1 < Z.of_nat (length ys) ∧
  (target <=? item ys i)%float ≠ (target <=? item ys (i + 1))%float.

(** In the spec's words:
    [xs[i] + (target - ys[i]) * (xs[i+1] - xs[i]) / (ys[i+1] - ys[i])]. *)
Definition crossing_value (xs ys : Signal) (target : float) (i : Z) : float :=
  (item xs i
   + (target - item ys i) * (item xs (i + 1) - item xs i)
     / (item ys (i + 1) - item ys i))%float.

(** The column names [append_results] writes on its own, and those a
    dict of distortion parameters adds. *)
Definition params_keys (params : Params) : list string :=
  match params with
  | ParamsDict kw => kw.*1
  | _ => []
  end.

Definition row_keys : list string :=
  [_key_material; _key_full_pred; _key_sent; _key_models; _key_snr;
   _key_dist_params; _key_output; _key_value].

(** ** A scripted setting for concrete runs

    The world is the list of predictions still to be made: each call of the
    model's [predict] pops the next one and reports it as output [snr_env]
    (an exhausted script keeps answering 0). The material has one
    two-sample sentence and a three-sample masker. *)

Definition script_model : Model (list float) :=
  {| model_name := "Scripted";
     predict := λ _ _ _ w,
       match w with
       | v :: w' => ({| p := [("snr_env"%string, v)] |}, w')
       | [] => ({| p := [("snr_env"%string, 0%float)] |}, [])
       end |}.

Definition script_material : Material (list float) :=
  {| material_name := "Script";
     load_files := λ n w,
       (match n with
        | Some k => take k [[3; 4]%float]
        | None => [[3; 4]%float]
        end, w);
     ssn := λ _ w, ([1; 2; 2]%float, w) |}.

Definition script_experiment : Experiment (list float) :=
  {| models := [script_model];
     material := script_material;
     snrs := [];
     distortion := None;
     dist_params := [ParamsNone];
     fixed_level := 65%float;
     fixed_target := true;
     name := None;
     write := true;
     output_path := "./output/";
     timestamp_format := "%Y%m%d-%H%M%S";
     adjust_levels_bef_proc := false |}.

(** The class defaults, but for the number of test reversals. *)
Definition script_adaptive (n_test_reversals : Z)
  : AdaptiveExperiment (list float) :=
  AdaptiveExperiment_init [("snr_env"%string, 33.5%float)] 20%float
    [4; 2; 1]%float n_test_reversals (-1) script_experiment.

Definition script_seed : Z → list float → list float := λ _ w, w.

Definition hi : float := 40%float.
Definition lo : float := 30%float.

(** Thirteen scripted predictions, alternating above and below the
    threshold 33.5. *)
Definition script : list float :=
  [hi; lo; hi; lo; hi; lo; hi; lo; hi; lo; hi; lo; hi].

Abbreviation script_run n_test_reversals :=
  (run_traced pow_series script_seed 50 (script_adaptive n_test_reversals)
     None 0 script).

(** The trace entry of the single group of [script_run]. *)
Definition script_exit (n_test_reversals : Z) : Locals * float :=
  match script_run n_test_reversals with
  | Ok (_, e :: _, _) => e
  | _ => (staircase_init (script_adaptive n_test_reversals) [] [] None, nan)
  end.

(** The locals before the first pass of the scripted group. *)
Definition script_init : Locals :=
  staircase_init (script_adaptive 6) [3; 4]%float [1; 2; 2]%float None.

(** A distortion that drops the first sample of both signals, and the
    scripted experiment run with it. *)
Definition drop_first (target masker : Signal) (params : Params)
  : outcome (Signal * Signal) :=
  Ok (tail target, tail masker).

Definition trimming_experiment : Experiment (list float) :=
  {| models := [script_model];
     material := script_material;
     snrs := [];
     distortion := Some drop_first;
     dist_params := [ParamsTuple [PyInt 1]];
     fixed_level := 65%float;
     fixed_target := true;
     name := None;
     write := true;
     output_path := "./output/";
     timestamp_format := "%Y%m%d-%H%M%S";
     adjust_levels_bef_proc := false |}.

Definition trimming_adaptive : AdaptiveExperiment (list float) :=
  AdaptiveExperiment_init [("snr_env"%string, 33.5%float)] 20%float
    [4; 2; 1]%float 6 (-1) trimming_experiment.

(** The single row of the table of [script_run], and the sizes of its table
    and trace. *)
Definition script_row (n_test_reversals : Z) : gmap string cell :=
  match script_run n_test_reversals with
  | Ok (row :: _, _, _) => row
  | _ => ∅
  end.

Definition script_shape (n_test_reversals : Z) : nat * nat :=
  match script_run n_test_reversals with
  | Ok (df, trace, _) => (length df, length trace)
  | _ => (0%nat, 0%nat)
  end.

(** The locals after a first pass with a prediction above the threshold,
    and after a second pass with one below it. *)
Definition script_after_hi : Locals :=
  {| target := [3; 4]%float; masker := [1; 2; 2]%float;
     test_reversals := 0; total_reversals := 1;
     snr := 16%float; last_reversal_sign := -1;
     i_step := 0; all_res := [(20, 40)%float]; res := None |}.

Definition script_after_hi_lo : Locals :=
  {| target := [3; 4]%float; masker := [1; 2; 2]%float;
     test_reversals := 0; total_reversals := 2;
     snr := 20%float; last_reversal_sign := 1;
     i_step := 0; all_res := [(20, 40)%float; (16, 30)%float]; res := None |}.

Definition trimming_init : Locals :=
  staircase_init trimming_adaptive [3; 4]%float [1; 2; 2]%float None.

(** Split a conjunction of closed facts and evaluate each one. *)
Ltac evaluate_each :=
  repeat match goal with |- _ ∧ _ => split end; vm_compute; reflexivity.

(** ** Further functions of general.py and experiment.py *)

(** [add_signals(a, b)]: the longer vector is copied and the shorter one is
    added onto its first samples. *)
Definition add_signals (a b : Signal) : Signal :=
  if (length a <? length b)%nat then
    zip_with PrimFloat.add (take (length a) b) a ++ drop (length a) b
  else
    zip_with PrimFloat.add (take (length b) a) b ++ drop (length b) a.

(** The error of [bool(idx)] on an array of more than one element. *)
Definition ambiguous_truth : exn :=
  ValueError "The truth value of an array with more than one element is ambiguous. Use a.any() or a.all()".

(** [isinstance(params, dict)] is false. *)
Definition plain_params (params : Params) : Prop :=
  ∀ kw, params ≠ ParamsDict kw.

(** One pass of the loop over the outputs in [append_results]. *)
Definition output_step (acc : DataFrame * gmap string cell)
    (nv : string * float) : DataFrame * gmap string cell :=
  let d := <[_key_value := CellFloat nv.2]>
           (<[_key_output := CellStr nv.1]> acc.2) in
  (acc.1 ++ [d], d).

Section Sequential.

Context {World : Type}.
Variable pow : float → float → float.
Variable np_random_seed : Z → World → World.

(** The dict [d] of [append_results] when the loop over the outputs
    starts. *)
Definition condition_dict (self : Experiment World) (res : ModelOutput)
    (model : Model World) (snr : float) (i_target : Z) (params : Params)
  : gmap string cell :=
  let d : gmap string cell :=
    <[_key_material := CellStr (material_name (material self))]>
    (<[_key_full_pred := CellPrediction res]>
    (<[_key_sent := CellInt i_target]>
    (<[_key_models := CellStr (model_name model)]>
    (<[_key_snr := CellFloat snr]> ∅)))) in
  match params with
  | ParamsDict kw => fold_left (λ d kv, <[kv.1 := CellPy kv.2]> d) kw d
  | ParamsList args => <[_key_dist_params := CellParams (ParamsTuple args)]> d
  | _ => <[_key_dist_params := CellParams params]> d
  end.

(** The levels [adjust_levels] hands to [setdbspl]. *)
Definition target_level (self : Experiment World) (snr : float) : float :=
  if fixed_target self then fixed_level self
  else (fixed_level self + snr)%float.

Definition masker_level (self : Experiment World) (snr : float) : float :=
  if fixed_target self then (fixed_level self - snr)%float
  else fixed_level self.

(** [Experiment._model_prediction] *)
Definition _model_prediction (model : Model World) (target mix masker : Signal)
    (w : World) : ModelOutput * World :=
  predict model target mix masker w.

(** [Experiment._predict]: one condition, into a table of its own. *)
Definition _predict (self : Experiment World) (ii_and_target : Z * Signal)
    (snr : float) (model : Model World) (params : Params) (w : World)
  : outcome (DataFrame * World) :=
  let '(i_target, target) := ii_and_target in
  let '(masker, w) := next_masker self target params w in
  '(target, mix, masker) ← preprocessing pow self target masker snr params;
  let '(res, w) := _model_prediction model target mix masker w in
  Ok (append_results self [] res model snr i_target params [], w).

(** One element of the product [_single_run] iterates over. *)
Definition Condition : Type := (Z * Signal) * Params * float * Model World.

(** The body of the [for] loop of [_single_run]. *)
Definition single_run_step (self : Experiment World) (c : Condition)
    (df : DataFrame) (w : World) : outcome (DataFrame * World) :=
  let '((i_target, target), params, snr, model) := c in
  let '(masker, w) := next_masker self target params w in
  '(target, mix, masker) ← preprocessing pow self target masker snr params;
  let '(res, w) := prediction model target mix masker w in
  Ok (append_results self df res model snr i_target params [], w).

Fixpoint single_run_loop (self : Experiment World) (conditions : list Condition)
    (df : DataFrame) (w : World) : outcome (DataFrame * World) :=
  match conditions with
  | [] => Ok (df, w)
  | c :: conditions' =>
      '(df', w') ← single_run_step self c df w;
      single_run_loop self conditions' df' w'
  end.

(** [itertools.product] of four iterables. *)
Definition product4 {A B C D} (a : list A) (b : list B) (c : list C)
    (d : list D) : list (A * B * C * D) :=
  flat_map
    (λ x, flat_map (λ y, flat_map (λ z, map (λ u, (x, y, z, u)) d) c) b) a.

Definition conditions_of (self : Experiment World) (targets : list Signal)
  : list Condition :=
  product4 (enumerate targets) (dist_params self) (snrs self) (models self).

(** [Experiment._single_run(n, seed)] *)
Definition _single_run (self : Experiment World) (n : option nat) (seed : Z)
    (w : World) : outcome (DataFrame * World) :=
  let w := np_random_seed seed w in
  let '(targets, w) := load_files (material self) n w in
  single_run_loop self (conditions_of self targets) [] w.

(** Every prediction of the model has [k] named outputs. *)
Definition gives_outputs (k : nat) (model : Model World) : Prop :=
  ∀ target mix masker w, length (p (predict model target mix masker w).1) = k.

(** A row that names one of the experiment's SNRs, one of its models and
    the index of one of the sentences. *)
Definition condition_row (self : Experiment World) (targets : list Signal)
    (row : gmap string cell) : Prop :=
  ∃ (s : float) (model : Model World) (i : Z),
    row !! _key_snr = Some (CellFloat s) ∧ s ∈ snrs self
    ∧ row !! _key_models = Some (CellStr (model_name model))
    ∧ model ∈ models self
    ∧ row !! _key_sent = Some (CellInt i) ∧ 0 ≤ i < Z.of_nat (length targets).

End Sequential.

(** A row written from the locals a staircase ended with. *)
Definition row_of_entry (row : gmap string cell) (e : Locals * float) : Prop :=
  row !! _key_snr = Some (CellFloat (snr e.1))
  ∧ row !! _key_full_pred = CellPrediction <$> res e.1.

(** A fixed-SNR experiment over the scripted model, and its table. *)
Definition sweep_experiment : Experiment (list float) :=
  {| models := [script_model];
     material := script_material;
     snrs := [-5; 0; 5]%float;
     distortion := None;
     dist_params := [ParamsNone];
     fixed_level := 65%float;
     fixed_target := true;
     name := None;
     write := true;
     output_path := "./output/";
     timestamp_format := "%Y%m%d-%H%M%S";
     adjust_levels_bef_proc := false |}.

(** The table of a run, empty when the run raised. *)
Definition table_of {W} (m : outcome (DataFrame * W)) : DataFrame :=
  match m with
  | Ok (df, _) => df
  | _ => []
  end.

Abbreviation sweep_run :=
  (_single_run pow_series script_seed sweep_experiment None 0 script).

Definition sweep_table : DataFrame := table_of sweep_run.

(** The staircase of [script_adaptive] with a one-entry step schedule. *)
Definition single_step_adaptive : AdaptiveExperiment (list float) :=
  AdaptiveExperiment_init [("snr_env"%string, 33.5%float)] 20%float
    [1]%float 6 (-1) script_experiment.

(** The locals after [script_after_hi] and a prediction below the
    threshold, with that schedule. *)
Definition single_step_after_lo : Locals :=
  {| target := [3; 4]%float; masker := [1; 2; 2]%float;
     test_reversals := 1; total_reversals := 2;
     snr := 17%float; last_reversal_sign := 1;
     i_step := 0; all_res := [(20, 40)%float; (16, 30)%float]; res := None |}.

(** A model output with two named values, and distortion parameters given
    as a dict, one of whose keys is the name of the SNR column. *)
Definition two_outputs : ModelOutput :=
  {| p := [("snr_env"%string, 40%float); ("sii"%string, 0.5%float)] |}.


(** ** Facts about the primitives *)

Lemma py_getitem_in_range (l : Signal) (i : Z) :
  0 ≤ i < Z.of_nat (length l) → py_getitem l i = Ok (item l i).
Proof.
  intros [H0 H1]. unfold py_getitem, item.
  destruct (Z.ltb_spec i 0) as [?|_]; [lia|].
  destruct (Z.leb_spec 0 i) as [_|?]; [|lia].
  destruct (Z.ltb_spec i (Z.of_nat (length l))) as [_|?]; [|lia].
  simpl. destruct (l !! Z.to_nat i) as [a|] eqn:E.
  - rewrite (nth_lookup_Some _ _ _ _ E). reflexivity.
  - apply lookup_ge_None in E. lia.
Qed.

Lemma py_getitem_cases {A} (l : list A) (i : Z) :
  (∃ a, py_getitem l i = Ok a) ∨ py_getitem l i = Raise IndexError.
Proof.
  unfold py_getitem.
  destruct (_ && _); [|by right].
  destruct (l !! _); [left; eauto | by right].
Qed.

Lemma interpolate_cases x y srt i :
  (∃ v, interpolate x y srt i = Ok v) ∨ interpolate x y srt i = Raise IndexError.
Proof.
  unfold interpolate.
  destruct (py_getitem_cases x i) as [[? ->]| ->]; [|by right].
  destruct (py_getitem_cases y i) as [[? ->]| ->]; [|by right].
  destruct (py_getitem_cases x (i + 1)) as [[? ->]| ->]; [|by right].
  destruct (py_getitem_cases y (i + 1)) as [[? ->]| ->]; [|by right].
  left; eauto.
Qed.

Lemma interpolate_all_cases x y srt idx :
  (∃ v, interpolate_all x y srt idx = Ok v)
  ∨ interpolate_all x y srt idx = Raise IndexError.
Proof.
  induction idx as [|i idx IH]; simpl; [left; eauto|].
  destruct (interpolate_cases x y srt i) as [[? ->]| ->]; [|by right].
  destruct IH as [[? ->]| ->]; [left; eauto | by right].
Qed.

Lemma interpolate_in_range xs ys target i :
  length xs = length ys → 0 ≤ i → i + 1 < Z.of_nat (length ys) →
  interpolate xs ys target i = Ok (crossing_value xs ys target i).
Proof.
  intros Hlen H0 H1. unfold interpolate.
  rewrite !py_getitem_in_range by lia. reflexivity.
Qed.

Lemma np_diff_bool_lookup (a : list bool) (n : nat) (b : bool) :
  np_diff_bool a !! n = Some b ↔
  ∃ u v, a !! n = Some u ∧ a !! S n = Some v ∧ b = xorb v u.
Proof.
  revert n. induction a as [|u [|v a'] IH]; intros n.
  - simpl. split; [done | intros (?&?&?&?&?); done].
  - simpl. split; [done | intros (?&?&?&H&?); destruct n; done].
  - change (np_diff_bool (u :: v :: a')) with (xorb v u :: np_diff_bool (v :: a')).
    destruct n as [|n].
    + simpl. split.
      * intros [= <-]. eauto.
      * intros (?&?&[= <-]&[= <-]&->). done.
    + rewrite lookup_cons. apply IH.
Qed.

Lemma np_nonzero_from_elem (k j : Z) (a : list bool) :
  j ∈ np_nonzero_from k a ↔ ∃ n : nat, j = k + Z.of_nat n ∧ a !! n = Some true.
Proof.
  revert k. induction a as [|u a IH]; intros k; simpl.
  - split; [intros H; inversion H | intros (?&?&?); done].
  - assert (j ∈ np_nonzero_from (k + 1) a ↔
            ∃ n : nat, j = k + Z.of_nat (S n) ∧ a !! n = Some true) as IH'.
    { rewrite IH. split; intros (n&?&?); exists n; split; (lia || done). }
    destruct u.
    + rewrite elem_of_cons, IH'. split.
      * intros [->|(n&?&?)]; [exists 0%nat; split; [lia|done] | exists (S n); done].
      * intros ([|n]&?&?); [left; lia | right; exists n; done].
    + rewrite IH'. split.
      * intros (n&?&?). exists (S n). done.
      * intros ([|n]&?&?); [done | exists n; done].
Qed.

Lemma np_nonzero_from_increasing (k j1 j2 : Z) (a : list bool) (r : list Z) :
  np_nonzero_from k a = j1 :: j2 :: r → j1 < j2.
Proof.
  revert k. induction a as [|u a IH]; intros k; simpl; [done|].
  destruct u; [|apply IH].
  intros [= <- H].
  assert (j2 ∈ np_nonzero_from (k + 1) a) as Hin by (rewrite H; left).
  apply np_nonzero_from_elem in Hin as (n&?&?). lia.
Qed.

Lemma item_map_leb (ys : Signal) (target : float) (n : nat) (b : bool) :
  map (λ v, target <=? v)%float ys !! n = Some b →
  b = (target <=? item ys (Z.of_nat n))%float ∧ (n < length ys)%nat.
Proof.
  rewrite list_lookup_fmap. intros H.
  destruct (ys !! n) as [v|] eqn:E; [|done].
  injection H as <-. unfold item. rewrite Nat2Z.id.
  rewrite (nth_lookup_Some _ _ _ _ E). split; [done|].
  by apply lookup_lt_Some in E.
Qed.

(** The indices [int2srt] computes are the crossings of the spec. *)
Lemma crossings_spec (ys : Signal) (target : float) (i : Z) :
  i ∈ crossings ys target ↔ is_crossing ys target i.
Proof.
  unfold crossings, np_nonzero, is_crossing.
  rewrite np_nonzero_from_elem. split.
  - intros (n & -> & H). apply np_diff_bool_lookup in H as (u & v & Hu & Hv & Hx).
    apply item_map_leb in Hu as [-> _]. apply item_map_leb in Hv as [-> ?].
    replace (0 + Z.of_nat n + 1) with (Z.of_nat (S n)) by lia.
    replace (0 + Z.of_nat n) with (Z.of_nat n) by lia.
    repeat split; [lia | lia |].
    intros E. rewrite E in Hx. by rewrite xorb_nilpotent in Hx.
  - intros (H0 & H1 & Hne). exists (Z.to_nat i). split; [lia|].
    apply np_diff_bool_lookup.
    exists (target <=? item ys i)%float, (target <=? item ys (i + 1))%float.
    rewrite !list_lookup_fmap. unfold item in *.
    replace (Z.to_nat (i + 1)) with (S (Z.to_nat i)) in * by lia.
    destruct (ys !! Z.to_nat i) as [a|] eqn:Ea;
      [|apply lookup_ge_None in Ea; lia].
    destruct (ys !! S (Z.to_nat i)) as [b|] eqn:Eb;
      [|apply lookup_ge_None in Eb; lia].
    rewrite (nth_lookup_Some _ _ _ _ Ea), (nth_lookup_Some _ _ _ _ Eb) in *.
    simpl. repeat split.
    destruct (target <=? a)%float, (target <=? b)%float; done.
Qed.

Lemma crossings_unique (ys : Signal) (target : float) (i : Z) :
  is_crossing ys target i →
  (∀ j, is_crossing ys target j → j = i) →
  crossings ys target = [i].
Proof.
  intros Hi Huniq.
  destruct (crossings ys target) as [|j1 [|j2 r]] eqn:E.
  - apply crossings_spec in Hi. rewrite E in Hi. inversion Hi.
  - f_equal. apply Huniq, crossings_spec. rewrite E. left.
  - assert (j1 = i) by (apply Huniq, crossings_spec; rewrite E; left).
    assert (j2 = i) by (apply Huniq, crossings_spec; rewrite E; right; left).
    apply np_nonzero_from_increasing in E. lia.
Qed.

Lemma crossings_none (ys : Signal) (target : float) :
  (∀ i, ¬ is_crossing ys target i) → crossings ys target = [].
Proof.
  intros H. destruct (crossings ys target) as [|j r] eqn:E; [done|].
  exfalso. apply (H j), crossings_spec. rewrite E. left.
Qed.

(** Division by a zero and the scaling that follows never give a finite
    number: [v / 0] is [nan] or an infinity, and so is its product with the
    gain. *)
Lemma div_by_zero_not_finite (v r g : float) :
  (r =? 0)%float = true → PrimFloat.is_finite (v / r * g)%float = false.
Proof.
  intros Hr.
  rewrite FloatAxioms.eqb_spec in Hr.
  assert (∃ s, Prim2SF r = S754_zero s) as [s Hs].
  { change (Prim2SF 0) with (S754_zero false) in Hr.
    destruct (Prim2SF r) as [s|s| |s m e]; [eauto|..];
      try destruct s; cbv in Hr; discriminate. }
  assert (Prim2SF (v / r) = S754_nan ∨ ∃ s', Prim2SF (v / r) = S754_infinity s')
    as Hq.
  { rewrite FloatAxioms.div_spec, Hs. unfold SF64div, SFdiv.
    destruct (Prim2SF v); eauto. }
  assert (Prim2SF (v / r * g) = S754_nan
          ∨ ∃ s', Prim2SF (v / r * g) = S754_infinity s') as Hp.
  { rewrite FloatAxioms.mul_spec. unfold SF64mul, SFmul.
    destruct Hq as [-> | [s' ->]]; [eauto|].
    destruct (Prim2SF g); eauto. }
  rewrite <- (SF2Prim_Prim2SF (v / r * g)).
  destruct Hp as [-> | [[] ->]]; reflexivity.
Qed.

Lemma setdbspl_length pow (x : Signal) (lvl : float) (ac : bool) (offset : float) :
  length (setdbspl pow x lvl ac offset) = length x.
Proof. unfold setdbspl. apply length_map. Qed.

(** ** The crossing extractor (general.py, [int2srt]) *)

(** C7 (as the code has it): for equal-length sequences with exactly one
    index [i] where [(ys[i] >= target) != (ys[i+1] >= target)], [int2srt]
    returns exactly one crossing value: the one-element array holding
    [xs[i] + (target - ys[i]) * (xs[i+1] - xs[i]) / (ys[i+1] - ys[i])], or
    the scalar [xs[0]] when [i = 0] and [ys[0] == target]. *)
Theorem int2srt_single_crossing (xs ys : Signal) (target : float) (i : Z) :
  length xs = length ys →
  is_crossing ys target i →
  (∀ j, is_crossing ys target j → j = i) →
  int2srt xs ys target =
    Ok (if (i =? 0) && (item ys 0 =? target)%float
        then SrtScalar (item xs 0)
        else SrtArray [crossing_value xs ys target i]).
Proof.
  intros Hlen Hi Huniq.
  pose proof Hi as (H0 & H1 & _).
  unfold int2srt.
  rewrite Hlen, Nat.eqb_refl. simpl negb. cbv iota.
  rewrite (crossings_unique ys target i Hi Huniq).
  cbn [ndarray_bool mbind outcome_bind].
  destruct (Z.eqb_spec i 0) as [->|Hne]; cbn [negb andb].
  - rewrite (py_getitem_in_range ys 0) by lia.
    cbn [mbind outcome_bind].
    destruct (item ys 0 =? target)%float.
    + rewrite (py_getitem_in_range xs 0) by lia. reflexivity.
    + cbn [length Nat.leb]. cbn [interpolate_all].
      rewrite interpolate_in_range by (done || lia). reflexivity.
  - cbn [mbind outcome_bind length Nat.leb interpolate_all].
    rewrite interpolate_in_range by (done || lia). reflexivity.
Qed.

(** The documented example: one crossing, between index 1 and 2, at 1.5. *)
Lemma int2srt_single_crossing_witness :
  int2srt [0; 1; 2; 3]%float [0; 40; 60; 80]%float 50%float
  = Ok (SrtArray [1.5%float]).
Proof.
  refine (int2srt_single_crossing
            [0; 1; 2; 3]%float [0; 40; 60; 80]%float 50%float 1 eq_refl _ _).
  - split; [lia | split; [simpl; lia | vm_compute; discriminate]].
  - intros j (H0 & H1 & Hne). simpl in H1.
    assert (j = 0 ∨ j = 1 ∨ j = 2) as [-> | [-> | ->]] by lia;
      [|reflexivity|]; vm_compute in Hne; congruence.
Defined.

(** C7, as stated, fails: with three crossings the call does not return the
    first one; [not idx] raises on an index array of more than one element. *)
Lemma int2srt_several_crossings_raise :
  is_crossing [0; 60; 40; 80]%float 50%float 0 ∧
  is_crossing [0; 60; 40; 80]%float 50%float 1 ∧
  int2srt [0; 1; 2; 3]%float [0; 60; 40; 80]%float 50%float
  = Raise (ValueError "The truth value of an array with more than one element is ambiguous. Use a.any() or a.all()").
Proof.
  split; [|split]; [| |reflexivity];
    (split; [lia | split; [simpl; lia | vm_compute; discriminate]]).
Qed.

(** C8 (as the code has it): [int2srt] raises its length-mismatch error
    exactly when [xs] and [ys] differ in length; for non-empty equal-length
    inputs with no crossing index it returns [None], except that it returns
    [xs[0]] when [ys[0] == target]. *)
Theorem int2srt_mismatch_and_no_crossing (xs ys : Signal) (target : float) :
  (int2srt xs ys target = Raise (ValueError "Inputs of different lenghts.")
   ↔ length xs ≠ length ys)
  ∧ (length xs = length ys → ys ≠ [] →
     (∀ i, ¬ is_crossing ys target i) →
     int2srt xs ys target =
       Ok (if (item ys 0 =? target)%float then SrtScalar (item xs 0)
           else SrtNone)).
Proof.
  split.
  - unfold int2srt. destruct (Nat.eqb_spec (length xs) (length ys)) as [E|E];
      cbn [negb]; [|done].
    split; [|done]. intros H. exfalso. revert H.
    destruct (crossings ys target) as [|j1 [|j2 r]];
      cbn [ndarray_bool mbind outcome_bind]; [| |done].
    + cbn [negb].
      destruct (py_getitem_cases ys 0) as [[y0 ->]| ->];
        cbn [mbind outcome_bind]; [|done].
      destruct (y0 =? target)%float.
      * destruct (py_getitem_cases xs 0) as [[x0 ->]| ->]; done.
      * done.
    + assert (∀ c : bool,
        (if c then x0 ← py_getitem xs 0; Ok (SrtScalar x0)
         else if (1 <=? length [j1])%nat
              then v ← interpolate_all xs ys target [j1]; Ok (SrtArray v)
              else Ok SrtNone)
        ≠ Raise (ValueError "Inputs of different lenghts.")) as Hc.
      { intros [].
        - destruct (py_getitem_cases xs 0) as [[x0 ->]| ->]; done.
        - cbn [length Nat.leb].
          destruct (interpolate_all_cases xs ys target [j1]) as [[v ->]| ->];
            done. }
      destruct (negb (negb (j1 =? 0))); cbn [mbind outcome_bind].
      * destruct (py_getitem_cases ys 0) as [[y0 ->]| ->];
          cbn [mbind outcome_bind]; [apply Hc | done].
      * apply (Hc false).
  - intros Hlen Hne Hnone. unfold int2srt.
    rewrite Hlen, Nat.eqb_refl. cbn [negb].
    rewrite (crossings_none ys target Hnone).
    cbn [ndarray_bool mbind outcome_bind negb].
    assert (0 < Z.of_nat (length ys)) by (destruct ys; [done | simpl; lia]).
    rewrite (py_getitem_in_range ys 0) by lia.
    cbn [mbind outcome_bind].
    destruct (item ys 0 =? target)%float.
    + rewrite (py_getitem_in_range xs 0) by lia. reflexivity.
    + reflexivity.
Qed.

(** A curve that stays below the target has no crossing: [None]. *)
Lemma int2srt_mismatch_and_no_crossing_witness :
  int2srt [0; 1; 2]%float [10; 20; 30]%float 50%float = Ok SrtNone.
Proof.
  refine (proj2 (int2srt_mismatch_and_no_crossing
                   [0; 1; 2]%float [10; 20; 30]%float 50%float) eq_refl _ _).
  - discriminate.
  - intros j (H0 & H1 & Hne). simpl in H1.
    assert (j = 0 ∨ j = 1) as [-> | ->] by lia; vm_compute in Hne; congruence.
Defined.

(** C8, as stated, fails on empty inputs: the lengths agree and there is no
    crossing, yet the call raises [IndexError] at [y[0]] instead of
    returning [None]. *)
Lemma int2srt_empty_raises :
  length ([] : Signal) = length ([] : Signal) ∧
  int2srt [] [] 50%float = Raise IndexError.
Proof. split; reflexivity. Qed.

(** ** Level setting (general.py, [setdbspl]) *)

(** C9 (as the code has it): for a signal whose RMS is zero [setdbspl] does
    not fail; it returns an array of the signal's length whose every sample
    is [nan] or infinite. *)
Theorem setdbspl_zero_rms (pow : float → float → float) (x : Signal)
    (lvl : float) (ac : bool) (offset : float) :
  (rms x ac =? 0)%float = true →
  length (setdbspl pow x lvl ac offset) = length x ∧
  Forall (λ v, PrimFloat.is_finite v = false) (setdbspl pow x lvl ac offset).
Proof.
  intros Hr. split; [apply setdbspl_length|].
  unfold setdbspl. apply Forall_forall. intros v Hv.
  apply list_elem_of_fmap in Hv as (u & -> & _).
  by apply div_by_zero_not_finite.
Qed.

(** The all-zeros signal: RMS zero, three non-finite samples back. *)
Lemma setdbspl_zero_rms_witness :
  length (setdbspl pow_series [0; 0; 0]%float 65%float false 100%float)
  = length [0; 0; 0]%float ∧
  Forall (λ v, PrimFloat.is_finite v = false)
    (setdbspl pow_series [0; 0; 0]%float 65%float false 100%float).
Proof.
  apply (setdbspl_zero_rms pow_series [0; 0; 0]%float 65%float false 100%float).
  vm_compute. reflexivity.
Defined.

(** C9, as stated, fails: the all-zeros signal has RMS zero and [setdbspl]
    returns a value for it, three [nan]s. *)
Lemma setdbspl_silence_returns :
  rms [0; 0; 0]%float false = 0%float ∧
  setdbspl pow_series [0; 0; 0]%float 65%float false 100%float
  = [nan; nan; nan].
Proof. split; vm_compute; reflexivity. Qed.

(** ** The adaptive staircase (experiment.py, [AdaptiveExperiment.run]) *)

Section StaircaseFacts.

Context {World : Type}.
Variable pow : float → float → float.
Variable np_random_seed : Z → World → World.

Implicit Types (self : AdaptiveExperiment World) (model : Model World).
Implicit Types (st : Locals) (w : World) (params : Params).

(** The keyword arguments of [append_results] do not reach the table. *)
Lemma append_results_ignores_kwargs (self : Experiment World) df r model
    (snr0 : float) i_target params kwargs kwargs' :
  append_results self df r model snr0 i_target params kwargs
  = append_results self df r model snr0 i_target params kwargs'.
Proof. reflexivity. Qed.

(** What one pass of the bookkeeping does to the locals, whatever branch is
    taken: one history entry more, one more in [total_reversals], at most
    one more in [test_reversals]. *)
Lemma update_effect self threshold pred st st' :
  update self threshold pred st = Ok st' →
  all_res st' = all_res st ++ [(snr st, pred)]
  ∧ total_reversals st' = total_reversals st + 1
  ∧ test_reversals st ≤ test_reversals st' ≤ test_reversals st + 1
  ∧ target st' = target st ∧ masker st' = masker st ∧ res st' = res st.
Proof.
  unfold update.
  destruct (threshold <=? pred)%float;
    (destruct (py_getitem_cases (step_sizes self) (i_step st)) as [[s ->]| ->];
     cbn [mbind outcome_bind]; [|done]).
  - destruct (0 <? last_reversal_sign st); intros [= <-]; cbn;
      repeat split; try lia.
    + destruct (_ =? _); lia.
    + destruct (_ =? _); lia.
  - destruct (last_reversal_sign st <? 0); intros [= <-]; cbn;
      repeat split; try lia.
    + destruct (_ =? _); lia.
    + destruct (_ =? _); lia.
Qed.

(** [evaluate] feeds [preprocessing] the current [target] and [masker] and
    stores its outputs back into them. *)
Lemma evaluate_effect self model pred_key params st w st' pred w' :
  evaluate pow self model pred_key params st w = Ok (st', pred, w') →
  (∃ mix, preprocessing pow self (target st) (masker st) (snr st) params
          = Ok (target st', mix, masker st'))
  ∧ is_Some (res st')
  ∧ test_reversals st' = test_reversals st
  ∧ total_reversals st' = total_reversals st
  ∧ snr st' = snr st ∧ all_res st' = all_res st.
Proof.
  unfold evaluate.
  destruct (preprocessing _ _ _ _ _ _) as [[[t mix] m]| |];
    cbn [mbind outcome_bind]; [|done..].
  destruct (prediction _ _ _ _ _) as [r w1].
  destruct (dict_getitem _ _) as [v| |]; cbn [mbind outcome_bind]; [|done..].
  intros [= <- <- <-]. cbn. repeat split; eauto.
Qed.

Lemma loop_body_effect self model pred_key threshold params st w st' w' :
  loop_body pow self model pred_key threshold params st w = Ok (st', w') →
  (∃ mix, preprocessing pow self (target st) (masker st) (snr st) params
          = Ok (target st', mix, masker st'))
  ∧ (∃ pred, all_res st' = all_res st ++ [(snr st, pred)])
  ∧ total_reversals st' = total_reversals st + 1
  ∧ test_reversals st ≤ test_reversals st' ≤ test_reversals st + 1
  ∧ is_Some (res st').
Proof.
  unfold loop_body.
  destruct (evaluate _ _ _ _ _ _ _) as [[[st1 pred] w1]| |] eqn:Ev;
    cbn [mbind outcome_bind]; [|done..].
  destruct (update _ _ _ _) as [st2| |] eqn:Eu;
    cbn [mbind outcome_bind]; [|done..].
  intros [= <- <-].
  apply evaluate_effect in Ev as ([mix Hp] & Hres & Ht & Htot & Hsnr & Hall).
  apply update_effect in Eu as (Hall' & Htot' & Ht' & Htg & Hmk & Hres').
  rewrite Htg, Hmk, Hres', Hall', Htot', Hall, Htot, Hsnr.
  repeat split; eauto; lia.
Qed.

(** The unfolding of the loop: the guard is tested before every pass. *)
Lemma while_loop_unfold fuel self model pred_key threshold params st w :
  while_loop pow (S fuel) self model pred_key threshold params st w =
  if test_reversals st <=? n_test_reversals self then
    '(st', w') ← loop_body pow self model pred_key threshold params st w;
    while_loop pow fuel self model pred_key threshold params st' w'
  else Ok (st, w).
Proof. reflexivity. Qed.

(** A loop that ends leaves [test_reversals] one past the bound, has logged
    one history entry per pass, and counted each pass in [total_reversals]. *)
Lemma while_loop_exit fuel self model pred_key threshold params st w st' w' :
  while_loop pow fuel self model pred_key threshold params st w = Ok (st', w') →
  (test_reversals st ≤ n_test_reversals self + 1 →
   test_reversals st' = n_test_reversals self + 1)
  ∧ test_reversals st' - test_reversals st
    ≤ Z.of_nat (length (all_res st')) - Z.of_nat (length (all_res st))
  ∧ total_reversals st' - total_reversals st
    = Z.of_nat (length (all_res st')) - Z.of_nat (length (all_res st))
  ∧ (st' = st ∧ n_test_reversals self < test_reversals st
     ∨ is_Some (res st') ∧ test_reversals st ≤ n_test_reversals self).
Proof.
  revert st w. induction fuel as [|fuel IH]; intros st w.
  - simpl. destruct (Z.leb_spec (test_reversals st) (n_test_reversals self));
      [done|]. intros [= <- <-]. repeat split; try lia. left. split; [done|lia].
  - rewrite while_loop_unfold.
    destruct (Z.leb_spec (test_reversals st) (n_test_reversals self)) as [Hle|Hgt].
    + destruct (loop_body _ _ _ _ _ _ _ _) as [[st1 w1]| |] eqn:Eb;
        cbn [mbind outcome_bind]; [|done..].
      intros Hloop.
      apply loop_body_effect in Eb as (_ & [pred Hall] & Htot & Ht & Hres).
      apply IH in Hloop as (Hexit & Hlen & Htotal & Hran).
      rewrite Hall, length_app in Hlen, Htotal. simpl in Hlen, Htotal.
      repeat split; try lia.
      right. split; [|done].
      destruct Hran as [[-> _]|[? _]]; done.
    + intros [= <- <-]. repeat split; try lia. left. split; [done|lia].
Qed.

(** A group that gets as far as [append_results] has run the loop body at
    least once, unless an earlier group left a [res] behind; with a negative
    bound and no earlier group, [res] is unbound and the call raises. *)
Lemma run_group_effect fuel self g df res_prev w df' st srt w' :
  run_group pow fuel self g df res_prev w = Ok (df', st, srt, w') →
  res_prev = None ∨ 0 ≤ n_test_reversals self →
  trace_ok self (st, srt) ∧ 0 ≤ n_test_reversals self ∧ is_Some (res st).
Proof.
  destruct g as [[[i_target target0] params] [model [pred_key threshold]]].
  unfold run_group.
  destruct (next_masker _ _ _ _) as [masker0 w0].
  destruct (while_loop _ _ _ _ _ _ _ _ _) as [[st1 w1]| |] eqn:Eloop;
    cbn [mbind outcome_bind]; [|done..].
  destruct (res st1) as [r|] eqn:Eres; cbn [mbind outcome_bind]; [|done].
  intros [= _ <- <- _] Hprev.
  apply while_loop_exit in Eloop as (Hexit & Hlen & Htot & Hran).
  cbn [staircase_init test_reversals all_res total_reversals length] in *.
  assert (0 ≤ n_test_reversals self) as Hn.
  { destruct Hran as [[-> Hneg]|[_ ?]]; [|done].
    destruct Hprev as [->|?]; [|lia]. cbn in Eres. done. }
  unfold trace_ok. cbn [fst snd].
  rewrite Eres. repeat split; eauto; lia.
Qed.

Lemma run_groups_trace fuel self groups df res_prev trace w df' trace' w' :
  run_groups pow fuel self groups df res_prev trace w = Ok (df', trace', w') →
  res_prev = None ∨ 0 ≤ n_test_reversals self →
  Forall (trace_ok self) trace →
  Forall (trace_ok self) trace'.
Proof.
  revert df res_prev trace w.
  induction groups as [|g groups IH]; intros df res_prev trace w; simpl.
  - intros [= _ <- _] _ Htr. done.
  - destruct (run_group _ _ _ _ _ _ _) as [[[[df1 st] srt] w1]| |] eqn:Eg;
      cbn [mbind outcome_bind]; [|done..].
    intros Hrun Hprev Htr.
    apply run_group_effect in Eg as (Hok & Hn & _); [|done].
    eapply IH; [exact Hrun | by right |].
    apply Forall_app. split; [done|]. by apply Forall_singleton.
Qed.

Lemma run_traced_trace fuel self n seed w df trace w' :
  run_traced pow np_random_seed fuel self n seed w = Ok (df, trace, w') →
  Forall (trace_ok self) trace.
Proof.
  unfold run_traced. destruct (load_files _ _ _) as [targets w0].
  intros Hrun. eapply run_groups_trace; [exact Hrun | by left | done].
Qed.

(** [all_res[-n:]] for [1 <= n <= len(all_res)] is the last [n] entries. *)
Lemma py_slice_from_last {A} (l : list A) (n : Z) :
  1 ≤ n ≤ Z.of_nat (length l) →
  ∃ older, l = older ++ py_slice_from (- n) l
           ∧ Z.of_nat (length (py_slice_from (- n) l)) = n.
Proof.
  intros Hn. unfold py_slice_from.
  destruct (Z.ltb_spec (- n) 0) as [_|?]; [|lia].
  exists (take (Z.to_nat (Z.max (- n + Z.of_nat (length l)) 0)) l). split.
  - by rewrite take_drop.
  - rewrite length_drop. lia.
Qed.

(** C4: in every run that returns, each group's loop was left with
    [test_reversals = n_test_reversals + 1]; the loop goes on while
    [test_reversals <= n_test_reversals], testing the guard before every
    pass, and a pass adds at most one, so it is left the first time the
    count exceeds the bound. *)
Theorem test_reversals_at_exit fuel self n seed w df trace w' st srt :
  run_traced pow np_random_seed fuel self n seed w = Ok (df, trace, w') →
  (st, srt) ∈ trace →
  test_reversals st = n_test_reversals self + 1
  ∧ ∀ fuel' model pred_key threshold params st0 w0,
      while_loop pow (S fuel') self model pred_key threshold params st0 w0 =
      if test_reversals st0 <=? n_test_reversals self then
        '(st1, w1) ← loop_body pow self model pred_key threshold params st0 w0;
        while_loop pow fuel' self model pred_key threshold params st1 w1
      else Ok (st0, w0).
Proof.
  intros Hrun Hin. split; [|reflexivity].
  apply run_traced_trace in Hrun.
  rewrite Forall_forall in Hrun. by destruct (Hrun _ Hin) as (? & _).
Qed.

(** C5 (as the code has it): in every run that returns, with
    [n_test_reversals >= 1], the [srt] of a group is the mean of the SNR
    components of the last [n_test_reversals] entries of its history. *)
Theorem srt_mean_of_last_entries fuel self n seed w df trace w' st srt :
  run_traced pow np_random_seed fuel self n seed w = Ok (df, trace, w') →
  (st, srt) ∈ trace →
  1 ≤ n_test_reversals self →
  ∃ older recent,
    all_res st = older ++ recent
    ∧ Z.of_nat (length recent) = n_test_reversals self
    ∧ srt = np_mean (map fst recent).
Proof.
  intros Hrun Hin Hn.
  apply run_traced_trace in Hrun.
  rewrite Forall_forall in Hrun.
  destruct (Hrun _ Hin) as (_ & Hsrt & Hlen & _). cbn [fst snd] in *.
  destruct (py_slice_from_last (all_res st) (n_test_reversals self))
    as (older & Hsplit & Hcount); [lia|].
  exists older, (py_slice_from (- n_test_reversals self) (all_res st)).
  repeat split; done.
Qed.

End StaircaseFacts.

(** ** The rows of the result table *)

Section Rows.

Context {World : Type}.
Variable pow : float → float → float.
Variable np_random_seed : Z → World → World.

Lemma fold_insert_params_lookup (kw : list (string * pyval))
    (d : gmap string cell) (k : string) :
  k ∉ kw.*1 → d !! k = None →
  fold_left (λ d kv, <[kv.1 := CellPy kv.2]> d) kw d !! k = None.
Proof.
  revert d. induction kw as [|[k' v] kw IH]; intros d Hk Hd; [done|].
  cbn [fold_left]. apply IH.
  - intros ?. apply Hk. cbn. by right.
  - rewrite lookup_insert_ne; [done|]. cbn. intros ->. apply Hk. cbn. by left.
Qed.

Lemma append_results_lacks_key (self : Experiment World) df r model
    (snr0 : float) i_target params kwargs (k : string) :
  k ∉ row_keys → k ∉ params_keys params →
  Forall (λ row : gmap string cell, row !! k = None) df →
  Forall (λ row : gmap string cell, row !! k = None)
    (append_results self df r model snr0 i_target params kwargs).
Proof.
  intros Hk Hp Hdf. unfold append_results.
  assert (∀ k', k' ∈ row_keys → k' ≠ k) as Hne.
  { intros k' Hin ->. done. }
  set (d0 := <[_key_material:=_]> _).
  assert (d0 !! k = None) as Hd0.
  { unfold d0. rewrite !lookup_insert_ne; [apply lookup_empty|..];
      apply Hne; unfold row_keys; set_solver. }
  clearbody d0.
  set (d1 := match params with ParamsDict _ => _ | _ => _ end).
  assert (d1 !! k = None) as Hd1.
  { unfold d1. destruct params as [|kw|args|args].
    - rewrite lookup_insert_ne; [done|]. apply Hne. unfold row_keys. set_solver.
    - by apply fold_insert_params_lookup.
    - rewrite lookup_insert_ne; [done|]. apply Hne. unfold row_keys. set_solver.
    - rewrite lookup_insert_ne; [done|]. apply Hne. unfold row_keys. set_solver. }
  clearbody d1. clear Hd0 d0.
  revert df d1 Hdf Hd1. induction (p r) as [|[nm v] l IH]; intros df d1 Hdf Hd1;
    [done|].
  cbn [fold_left fst snd]. apply IH.
  - apply Forall_app. split; [done|]. apply Forall_singleton.
    rewrite !lookup_insert_ne; [done|..]; apply Hne; unfold row_keys; set_solver.
  - rewrite !lookup_insert_ne; [done|..]; apply Hne; unfold row_keys; set_solver.
Qed.

Lemma run_groups_lack_key fuel (self : AdaptiveExperiment World) groups df
    res_prev trace w df' trace' w' (k : string) :
  run_groups pow fuel self groups df res_prev trace w = Ok (df', trace', w') →
  k ∉ row_keys →
  Forall (λ g : Group, k ∉ params_keys g.1.2) groups →
  Forall (λ row : gmap string cell, row !! k = None) df →
  Forall (λ row : gmap string cell, row !! k = None) df'.
Proof.
  intros Hrun Hk. revert df res_prev trace w Hrun.
  induction groups as [|g groups IH]; intros df res_prev trace w Hrun Hg Hdf.
  - cbn in Hrun. by injection Hrun as <- _ _.
  - apply Forall_cons in Hg as [Hg Hgs].
    cbn [run_groups] in Hrun.
    destruct (run_group _ _ _ _ _ _ _) as [[[[df1 st] srt] w1]| |] eqn:Eg;
      cbn [mbind outcome_bind] in Hrun; [|done..].
    eapply IH; [exact Hrun | done |].
    destruct g as [[[i_target target0] params] [model [pred_key threshold]]].
    unfold run_group in Eg.
    destruct (next_masker _ _ _ _) as [masker0 w0].
    destruct (while_loop _ _ _ _ _ _ _ _ _) as [[st1 w2]| |];
      cbn [mbind outcome_bind] in Eg; [|done..].
    destruct (res st1) as [r|]; cbn [mbind outcome_bind] in Eg; [|done].
    injection Eg as <- _ _ _.
    by apply append_results_lacks_key.
Qed.

Lemma groups_of_params (self : AdaptiveExperiment World) targets (g : Group) :
  g ∈ groups_of self targets → g.1.2 ∈ dist_params self.
Proof.
  unfold groups_of, product3. rewrite !list_elem_of_In.
  intros H. apply in_flat_map in H as (x & _ & H).
  apply in_flat_map in H as (y & Hy & H).
  apply in_map_iff in H as (z & <- & _). done.
Qed.

(** No row of the table an adaptive run returns has a column beyond the
    eight of [append_results] and the keys of the distortion-parameter
    dicts: in particular none named after a keyword argument. *)
Lemma run_rows_lack_key fuel (self : AdaptiveExperiment World) n seed parallel
    w df (k : string) :
  run pow np_random_seed fuel self n seed parallel w = Ok df →
  k ∉ row_keys →
  Forall (λ params, k ∉ params_keys params) (dist_params self) →
  Forall (λ row : gmap string cell, row !! k = None) df.
Proof.
  unfold run, run_traced. intros Hrun Hk Hp.
  destruct (load_files _ _ _) as [targets w0].
  destruct (run_groups _ _ _ _ _ _ _ _) as [[[df1 trace] w1]| |] eqn:Eg;
    cbn [mbind outcome_bind] in Hrun; [|done..].
  injection Hrun as <-.
  eapply run_groups_lack_key; [exact Eg | done | | done].
  apply Forall_forall. intros g Hg.
  rewrite Forall_forall in Hp. apply Hp. by eapply groups_of_params.
Qed.

End Rows.

(** ** Concrete runs *)

(** A scripted run whose table and trace have one entry each returned
    [script_row] and [script_exit]. *)
Lemma script_run_shape (n_test_reversals : Z) :
  script_shape n_test_reversals = (1%nat, 1%nat) →
  ∃ w', script_run n_test_reversals
        = Ok ([script_row n_test_reversals], [script_exit n_test_reversals], w').
Proof.
  unfold script_shape, script_row, script_exit.
  destruct (script_run n_test_reversals) as [[[df trace] w]| |]; [|done..].
  destruct df as [|row [|? ?]]; destruct trace as [|e [|? ?]]; try done.
  eauto.
Qed.

(** With a negative bound the loop body never runs and [res] is unbound
    when [append_results] is called. *)
Lemma negative_bound_raises :
  run pow_series script_seed 50 (script_adaptive (-2)) None 0 false script
  = Raise (UnboundLocalError "res").
Proof. vm_compute. reflexivity. Qed.

(** The scripted run with the default six test reversals ends on seven. *)
Lemma test_reversals_at_exit_witness :
  test_reversals (script_exit 6).1 = 6 + 1.
Proof.
  destruct (script_run_shape 6) as [w' Hrun]; [vm_compute; reflexivity|].
  revert Hrun. generalize (script_exit 6). intros [st srt] Hrun.
  exact (proj1 (test_reversals_at_exit pow_series script_seed 50
                  (script_adaptive 6) None 0 script _ _ _ st srt
                  Hrun (list_elem_of_here _ _))).
Defined.

(** The scripted run with six test reversals averages its last six SNRs. *)
Lemma srt_mean_of_last_entries_witness :
  ∃ older recent,
    all_res (script_exit 6).1 = older ++ recent
    ∧ Z.of_nat (length recent) = 6
    ∧ (script_exit 6).2 = np_mean (map fst recent).
Proof.
  destruct (script_run_shape 6) as [w' Hrun]; [vm_compute; reflexivity|].
  revert Hrun. generalize (script_exit 6). intros [st srt] Hrun.
  refine (srt_mean_of_last_entries pow_series script_seed 50 (script_adaptive 6)
            None 0 script _ _ _ st srt Hrun (list_elem_of_here _ _) _).
  simpl. lia.
Defined.

(** C5, as stated, fails for [n_test_reversals = 0]: [all_res[-0:]] is the
    whole history, so the [srt] is the mean of all five logged SNRs, 18,
    and not the mean of the last zero entries, which is [nan]. *)
Lemma srt_with_zero_test_reversals :
  (∃ w', script_run 0 = Ok ([script_row 0], [script_exit 0], w'))
  ∧ n_test_reversals (script_adaptive 0) = 0
  ∧ map fst (all_res (script_exit 0).1) = [20; 16; 20; 16; 18]%float
  ∧ (script_exit 0).2 = 18%float
  ∧ np_mean (map fst (drop 5 (all_res (script_exit 0).1))) = nan.
Proof.
  split; [apply script_run_shape; vm_compute; reflexivity|].
  evaluate_each.
Qed.

Section StepIndex.

Context {World : Type}.
Implicit Types (self : AdaptiveExperiment World) (st : Locals).

(** C3 (as the code has it): the two flips are not handled alike. When the
    prediction is below the threshold after a decrease, the direction
    becomes ascending and a test reversal is counted if the step index is
    already the last one, but the step index stays where it is; it advances
    to the next step size, capped at the last entry, only when the
    prediction meets the threshold after an increase. A pass that keeps
    the direction (a prediction that meets the threshold when the
    direction is not ascending, or one below it when the direction is not
    descending) changes neither the direction, nor the step index, nor the
    count of test reversals; so the step index changes in no pass but the
    downward flip. *)
Theorem update_on_flip self threshold pred st st' :
  update self threshold pred st = Ok st' →
  ((threshold <=? pred)%float = false → last_reversal_sign st < 0 →
   last_reversal_sign st' = 1
   ∧ i_step st' = i_step st
   ∧ test_reversals st' =
       test_reversals st
       + (if i_step st =? Z.of_nat (length (step_sizes self)) - 1
          then 1 else 0))
  ∧ ((threshold <=? pred)%float = true → 0 < last_reversal_sign st →
     last_reversal_sign st' = -1
     ∧ i_step st' = Z.min (i_step st + 1)
                      (Z.of_nat (length (step_sizes self)) - 1)
     ∧ test_reversals st' =
         test_reversals st
         + (if i_step st' =? Z.of_nat (length (step_sizes self)) - 1
            then 1 else 0))
  ∧ ((threshold <=? pred)%float = true → last_reversal_sign st ≤ 0 →
     last_reversal_sign st' = last_reversal_sign st
     ∧ i_step st' = i_step st
     ∧ test_reversals st' = test_reversals st)
  ∧ ((threshold <=? pred)%float = false → 0 ≤ last_reversal_sign st →
     last_reversal_sign st' = last_reversal_sign st
     ∧ i_step st' = i_step st
     ∧ test_reversals st' = test_reversals st)
  ∧ (i_step st' ≠ i_step st →
     (threshold <=? pred)%float = true ∧ 0 < last_reversal_sign st).
Proof.
  unfold update. intros Hup.
  destruct (py_getitem_cases (step_sizes self) (i_step st)) as [[s Hs]|Hs];
    rewrite Hs in Hup; cbn [mbind outcome_bind] in Hup;
    [|by destruct (threshold <=? pred)%float].
  destruct (threshold <=? pred)%float.
  - destruct (Z.ltb_spec 0 (last_reversal_sign st)) as [Hsign|Hsign];
      injection Hup as <-; cbn.
    + split; [done|]. split.
      { intros _ _. split; [done|]. split; [done|]. destruct (_ =? _); lia. }
      split; [intros _ ?; lia|]. split; [done|]. done.
    + split; [done|]. split; [intros _ ?; lia|].
      split; [done|]. split; [done|]. intros Hne. by destruct Hne.
  - destruct (Z.ltb_spec (last_reversal_sign st) 0) as [Hsign|Hsign];
      injection Hup as <-; cbn.
    + split.
      { intros _ _. split; [done|]. split; [done|]. destruct (_ =? _); lia. }
      split; [done|]. split; [done|]. split; [intros _ ?; lia|].
      intros Hne. by destruct Hne.
    + split; [intros _ ?; lia|]. split; [done|]. split; [done|].
      split; [done|]. intros Hne. by destruct Hne.
Qed.

End StepIndex.

(** The second pass of the scripted run: an upward flip at step index 0. *)
Lemma update_on_flip_witness :
  last_reversal_sign script_after_hi_lo = 1
  ∧ i_step script_after_hi_lo = i_step script_after_hi
  ∧ test_reversals script_after_hi_lo =
      test_reversals script_after_hi
      + (if i_step script_after_hi
            =? Z.of_nat (length (step_sizes (script_adaptive 6))) - 1
         then 1 else 0).
Proof.
  apply (proj1 (update_on_flip (script_adaptive 6) 33.5%float lo
                  script_after_hi script_after_hi_lo eq_refl)).
  - reflexivity.
  - simpl. lia.
Defined.

(** C3, as stated, fails: after a decrease from 20 to 16 with step index 0,
    a prediction below the threshold turns the direction upward and leaves
    the step index at 0, where the next step size would be index 1. *)
Lemma upward_flip_keeps_step_index :
  update (script_adaptive 6) 33.5%float hi script_init = Ok script_after_hi
  ∧ update (script_adaptive 6) 33.5%float lo script_after_hi
    = Ok script_after_hi_lo
  ∧ snr script_after_hi = (snr script_init - 4)%float
  ∧ last_reversal_sign script_after_hi = -1
  ∧ last_reversal_sign script_after_hi_lo = 1
  ∧ i_step script_after_hi_lo = 0
  ∧ Z.min (i_step script_after_hi + 1)
      (Z.of_nat (length (step_sizes (script_adaptive 6))) - 1) = 1.
Proof. evaluate_each. Qed.

(** C2: the pair [(snr, pred)] is appended in every pass, but
    [total_reversals] is incremented in every pass as well. On the failing
    input the first pass keeps the direction (a decrease from the initial
    descending state) and still counts a reversal; the whole run makes
    eleven passes with ten flips and reports eleven. *)
Theorem total_reversals_counts_every_pass :
  update (script_adaptive 6) 33.5%float hi script_init = Ok script_after_hi
  ∧ last_reversal_sign script_init = -1
  ∧ last_reversal_sign script_after_hi = -1
  ∧ total_reversals script_init = 0
  ∧ total_reversals script_after_hi = 1
  ∧ all_res script_after_hi = all_res script_init ++ [(snr script_init, hi)]
  ∧ length (all_res (script_exit 6).1) = 11%nat
  ∧ total_reversals (script_exit 6).1 = 11.
Proof. evaluate_each. Qed.

(** C1: [run] computes the SRT and the reversal count and hands them to
    [append_results] as keyword arguments, which that function never reads:
    on the failing input the one row of the table has neither field. It
    does carry the last model output and the last SNR. *)
Theorem adaptive_row_lacks_srt_and_reversals :
  (∃ w', script_run 6 = Ok ([script_row 6], [script_exit 6], w'))
  ∧ (script_exit 6).2 = 16.5%float
  ∧ total_reversals (script_exit 6).1 = 11
  ∧ script_row 6 !! "SRT"%string = None
  ∧ script_row 6 !! "Reversals"%string = None
  ∧ script_row 6 !! _key_full_pred = CellPrediction <$> res (script_exit 6).1
  ∧ script_row 6 !! _key_snr = Some (CellFloat (snr (script_exit 6).1))
  ∧ size (script_row 6) = 8%nat.
Proof.
  split; [apply script_run_shape; vm_compute; reflexivity|].
  evaluate_each.
Qed.

(** C6: the loop assigns the outputs of [preprocessing] to [target] and
    [masker], so the next pass preprocesses those. On the failing input the
    distortion drops one sample per call: the first pass turns the
    two-sample target into one sample, the second pass is fed that one
    sample and is left with none, where the condition's own signals would
    again have given one. *)
Theorem second_pass_preprocesses_first_pass_output :
  ∃ st1 w1 st2 w2,
    loop_body pow_series trimming_adaptive script_model "snr_env" 33.5%float
      (ParamsTuple [PyInt 1]) trimming_init script = Ok (st1, w1)
    ∧ loop_body pow_series trimming_adaptive script_model "snr_env" 33.5%float
        (ParamsTuple [PyInt 1]) st1 w1 = Ok (st2, w2)
    ∧ target trimming_init = [3; 4]%float
    ∧ masker trimming_init = [1; 2; 2]%float
    ∧ length (target st1) = 1%nat ∧ length (masker st1) = 1%nat
    ∧ (∃ mix, preprocessing pow_series trimming_adaptive
                (target st1) (masker st1) (snr st1) (ParamsTuple [PyInt 1])
              = Ok (target st2, mix, masker st2))
    ∧ target st2 = [] ∧ masker st2 = []
    ∧ (∃ t mix m, preprocessing pow_series trimming_adaptive
                    [3; 4]%float [1; 2; 2]%float (snr st1)
                    (ParamsTuple [PyInt 1])
                  = Ok (t, mix, m)
                  ∧ length t = 1%nat ∧ length m = 1%nat).
Proof.
  eexists _, _, _, _.
  split; [vm_compute; reflexivity|].
  split; [vm_compute; reflexivity|].
  do 4 (split; [vm_compute; reflexivity|]).
  split; [eexists; vm_compute; reflexivity|].
  do 2 (split; [vm_compute; reflexivity|]).
  eexists _, _, _. evaluate_each.
Qed.

(** ** The unused constructor parameter [change_step_on] *)

Section ChangeStepOn.

Context {World : Type}.
Variable pow : float → float → float.
Variable np_random_seed : Z → World → World.
Variables (pkt : list (string * float)) (start : float) (steps : list float).
Variables (ntr : Z) (kwargs : Experiment World).

Local Abbreviation mk c :=
  {| base := kwargs; pred_keys_and_thresholds := pkt; start_snr := start;
     step_sizes := steps; n_test_reversals := ntr; change_step_on := c |}.

Lemma while_loop_change_step_on (c1 c2 : Z) fuel model pred_key threshold
    params st w :
  while_loop pow fuel (mk c1) model pred_key threshold params st w
  = while_loop pow fuel (mk c2) model pred_key threshold params st w.
Proof.
  revert st w. induction fuel as [|fuel IH]; intros st w; [reflexivity|].
  rewrite !while_loop_unfold. cbn [n_test_reversals].
  destruct (test_reversals st <=? ntr); [|reflexivity].
  change (loop_body pow (mk c1) model pred_key threshold params st w)
    with (loop_body pow (mk c2) model pred_key threshold params st w).
  destruct (loop_body _ _ _ _ _ _ _ _) as [[st1 w1]| |];
    cbn [mbind outcome_bind]; [apply IH | done..].
Qed.

Lemma run_group_change_step_on (c1 c2 : Z) fuel g df res_prev w :
  run_group pow fuel (mk c1) g df res_prev w
  = run_group pow fuel (mk c2) g df res_prev w.
Proof.
  destruct g as [[[i_target target0] params] [model [pred_key threshold]]].
  unfold run_group. cbn [base].
  destruct (next_masker kwargs target0 params w) as [masker0 w0].
  rewrite (while_loop_change_step_on c1 c2). reflexivity.
Qed.

Lemma run_groups_change_step_on (c1 c2 : Z) fuel groups df res_prev trace w :
  run_groups pow fuel (mk c1) groups df res_prev trace w
  = run_groups pow fuel (mk c2) groups df res_prev trace w.
Proof.
  revert df res_prev trace w.
  induction groups as [|g groups IH]; intros df res_prev trace w;
    [reflexivity|].
  cbn [run_groups]. rewrite (run_group_change_step_on c1 c2).
  destruct (run_group _ _ _ _ _ _ _) as [[[[df1 st] srt] w1]| |];
    cbn [mbind outcome_bind]; [apply IH | done..].
Qed.

(** C10: the constructor stores [change_step_on], and [run] returns the
    same table whether it was given as -1 or as +1, for every
    configuration, every model and material, and every amount of fuel. *)
Theorem change_step_on_has_no_effect fuel n seed parallel w :
  change_step_on (AdaptiveExperiment_init pkt start steps ntr (-1) kwargs) = -1
  ∧ change_step_on (AdaptiveExperiment_init pkt start steps ntr 1 kwargs) = 1
  ∧ run pow np_random_seed fuel
      (AdaptiveExperiment_init pkt start steps ntr (-1) kwargs)
      n seed parallel w
    = run pow np_random_seed fuel
        (AdaptiveExperiment_init pkt start steps ntr 1 kwargs)
        n seed parallel w.
Proof.
  split; [reflexivity|]. split; [reflexivity|].
  unfold run, run_traced, AdaptiveExperiment_init. cbn [base].
  destruct (load_files (material kwargs) n (np_random_seed seed w))
    as [targets w0].
  change (groups_of (mk (-1)) targets) with (groups_of (mk 1) targets).
  rewrite (run_groups_change_step_on (-1) 1). reflexivity.
Qed.

End ChangeStepOn.

(** ** Padding and adding signals (general.py) *)

Lemma float_add_comm (x y : float) : (x + y)%float = (y + x)%float.
Proof.
  apply Prim2SF_inj. rewrite !FloatAxioms.add_spec.
  unfold SF64add, SFadd.
  destruct (Prim2SF x) as [sx|sx| |sx mx ex], (Prim2SF y) as [sy|sy| |sy my ey];
    try reflexivity; try (destruct sx, sy; reflexivity).
  rewrite (Z.min_comm ey ex). f_equal. apply Z.add_comm.
Qed.

(** Adding a number to zero gives the number back (a negative zero comes
    back as a positive one, which [==] does not tell apart). *)
Lemma float_zero_add (v : float) :
  (v =? v)%float = true → (0 + v =? v)%float = true.
Proof.
  rewrite !FloatAxioms.eqb_spec, FloatAxioms.add_spec.
  change (Prim2SF 0) with (S754_zero false).
  unfold SF64add, SFadd.
  destruct (Prim2SF v) as [s|s| |s m e]; try done.
  by destruct s.
Qed.

Lemma zip_with_add_comm (a b : Signal) :
  zip_with PrimFloat.add a b = zip_with PrimFloat.add b a.
Proof.
  revert b. induction a as [|x a IH]; intros [|y b]; simpl; try done.
  by rewrite float_add_comm, IH.
Qed.

(** X1: the two vectors [make_same_length] returns have the same length:
    the length of [b] when [a] is the shorter one and [extend_first] is
    set, the length of [a] in every other case. *)
Theorem make_same_length_equal_lengths (a b : Signal) (extend_first : bool) :
  length (make_same_length a b extend_first).1
  = length (make_same_length a b extend_first).2
  ∧ length (make_same_length a b extend_first).1
    = (if (length a <? length b)%nat && extend_first then length b
       else length a).
Proof.
  unfold make_same_length.
  destruct (Nat.ltb_spec (length a) (length b)); [destruct extend_first|];
    cbn [fst snd andb];
    rewrite ?length_app, ?length_map, ?length_replicate, ?length_take; lia.
Qed.

(** X2: when [b] is not longer than [a], [make_same_length] returns [a]
    itself and [b] padded with zeros to the length of [a], whatever
    [extend_first] is: every sample of [b] that is a number compares equal
    to the sample at its index, and the samples past the end of [b] are
    zeros. *)
Theorem make_same_length_pads_second (a b : Signal) (extend_first : bool) :
  (length b ≤ length a)%nat →
  (make_same_length a b extend_first).1 = a
  ∧ (∀ i v, b !! i = Some v → (v =? v)%float = true →
       ∃ c, (make_same_length a b extend_first).2 !! i = Some c
            ∧ (c =? v)%float = true)
  ∧ (∀ i, (length b ≤ i < length a)%nat →
       (make_same_length a b extend_first).2 !! i = Some 0%float).
Proof.
  intros Hle. unfold make_same_length.
  destruct (Nat.ltb_spec (length a) (length b)); [lia|]. cbn [fst snd].
  split; [done|]. split.
  - intros i v Hi Hv. exists (0 + v)%float. split; [|by apply float_zero_add].
    rewrite lookup_app_l by (rewrite length_map; by eapply lookup_lt_Some).
    by rewrite list_lookup_fmap, Hi.
  - intros i Hi. rewrite lookup_app_r by (rewrite length_map; lia).
    rewrite length_map. apply lookup_replicate_2. lia.
Qed.

(** A two-sample vector padded to three samples. *)
Lemma make_same_length_pads_second_witness :
  (make_same_length [1; 2; 3]%float [10; 20]%float true).1 = [1; 2; 3]%float
  ∧ (∀ i v, [10; 20]%float !! i = Some v → (v =? v)%float = true →
       ∃ c, (make_same_length [1; 2; 3]%float [10; 20]%float true).2 !! i
            = Some c
            ∧ (c =? v)%float = true)
  ∧ (∀ i, (length [10; 20]%float ≤ i < length [1; 2; 3]%float)%nat →
       (make_same_length [1; 2; 3]%float [10; 20]%float true).2 !! i
       = Some 0%float).
Proof.
  apply (make_same_length_pads_second [1; 2; 3]%float [10; 20]%float true).
  simpl. lia.
Defined.

(** X3: the sum of two signals is as long as the longer one. *)
Theorem add_signals_length (a b : Signal) :
  length (add_signals a b) = (length a `max` length b)%nat.
Proof.
  unfold add_signals. destruct (Nat.ltb_spec (length a) (length b));
    rewrite length_app, length_zip_with, length_take, length_drop; lia.
Qed.

(** X4: sample by sample, [add_signals] adds where both signals have a
    sample and copies the sample of the longer signal past the end of the
    shorter one. *)
Theorem add_signals_samples (a b : Signal) (i : nat) :
  add_signals a b !! i =
    match a !! i, b !! i with
    | Some x, Some y => Some (x + y)%float
    | Some x, None => Some x
    | None, Some y => Some y
    | None, None => None
    end.
Proof.
  unfold add_signals.
  destruct (Nat.ltb_spec (length a) (length b)) as [Hlt|Hge].
  - assert (length (zip_with PrimFloat.add (take (length a) b) a) = length a)
      as Hz by (rewrite length_zip_with, length_take; lia).
    destruct (a !! i) as [x|] eqn:Ea.
    + pose proof (lookup_lt_Some _ _ _ Ea).
      destruct (b !! i) as [y|] eqn:Eb; [|apply lookup_ge_None in Eb; lia].
      rewrite lookup_app_l by lia.
      rewrite lookup_zip_with, lookup_take_lt, Eb, Ea by lia. cbn.
      by rewrite float_add_comm.
    + apply lookup_ge_None in Ea.
      rewrite lookup_app_r by lia. rewrite Hz, lookup_drop.
      replace (length a + (i - length a))%nat with i by lia.
      by destruct (b !! i).
  - assert (length (zip_with PrimFloat.add (take (length b) a) b) = length b)
      as Hz by (rewrite length_zip_with, length_take; lia).
    destruct (b !! i) as [y|] eqn:Eb.
    + pose proof (lookup_lt_Some _ _ _ Eb).
      destruct (a !! i) as [x|] eqn:Ea; [|apply lookup_ge_None in Ea; lia].
      rewrite lookup_app_l by lia.
      by rewrite lookup_zip_with, lookup_take_lt, Eb, Ea by lia.
    + apply lookup_ge_None in Eb.
      rewrite lookup_app_r by lia. rewrite Hz, lookup_drop.
      replace (length b + (i - length b))%nat with i by lia.
      by destruct (a !! i).
Qed.

(** X5: [add_signals] does not depend on the order of its arguments,
    although the branch taken and the order of each addition do (the
    floats of the embedding have a single NaN). *)
Theorem add_signals_comm (a b : Signal) : add_signals a b = add_signals b a.
Proof.
  unfold add_signals.
  destruct (Nat.ltb_spec (length a) (length b)) as [Hlt|Hge],
           (Nat.ltb_spec (length b) (length a)) as [Hlt'|Hge'];
    try lia; try done.
  assert (length a = length b) as E by lia.
  rewrite E, <- E at 1. rewrite E.
  rewrite !firstn_all, !drop_all. rewrite <- E, firstn_all, drop_all.
  by rewrite zip_with_add_comm.
Qed.

(** ** Every way [int2srt] ends (general.py) *)

Lemma crossings_two (ys : Signal) (target : float) :
  (∃ j1 j2 r, crossings ys target = j1 :: j2 :: r)
  ↔ ∃ i j, i ≠ j ∧ is_crossing ys target i ∧ is_crossing ys target j.
Proof.
  split.
  - intros (j1 & j2 & r & E). exists j1, j2.
    pose proof (np_nonzero_from_increasing _ _ _ _ _ E).
    split; [lia|].
    split; apply crossings_spec; rewrite E;
      [apply list_elem_of_here|apply list_elem_of_further, list_elem_of_here].
  - intros (i & j & Hne & Hi & Hj).
    apply crossings_spec in Hi; apply crossings_spec in Hj.
    destruct (crossings ys target) as [|j1 [|j2 r]];
      [by apply elem_of_nil in Hi| |eauto].
    apply list_elem_of_singleton in Hi, Hj. congruence.
Qed.

(** The result of [int2srt] on inputs of equal length, by the number of
    crossings. *)
Lemma int2srt_by_crossings (xs ys : Signal) (target : float) :
  length xs = length ys →
  int2srt xs ys target =
    match crossings ys target with
    | [] =>
        match ys with
        | [] => Raise IndexError
        | _ => Ok (if (item ys 0 =? target)%float then SrtScalar (item xs 0)
                   else SrtNone)
        end
    | [i] =>
        Ok (if (i =? 0) && (item ys 0 =? target)%float
            then SrtScalar (item xs 0)
            else SrtArray [crossing_value xs ys target i])
    | _ => Raise ambiguous_truth
    end.
Proof.
  intros Hlen. unfold int2srt. rewrite Hlen, Nat.eqb_refl. cbn [negb].
  destruct (crossings ys target) as [|i [|j r]] eqn:E; [| |reflexivity].
  - cbn [ndarray_bool mbind outcome_bind negb].
    destruct ys as [|y ys']; [reflexivity|].
    rewrite (py_getitem_in_range (y :: ys') 0) by (simpl; lia).
    cbn [mbind outcome_bind].
    destruct (item (y :: ys') 0 =? target)%float; [|reflexivity].
    rewrite (py_getitem_in_range xs 0) by (rewrite Hlen; simpl; lia).
    reflexivity.
  - assert (is_crossing ys target i) as (H0 & H1 & _)
      by (apply crossings_spec; rewrite E; apply list_elem_of_here).
    cbn [ndarray_bool mbind outcome_bind].
    destruct (Z.eqb_spec i 0) as [->|Hne]; cbn [negb andb].
    + rewrite (py_getitem_in_range ys 0) by lia.
      cbn [mbind outcome_bind].
      destruct (item ys 0 =? target)%float.
      * rewrite (py_getitem_in_range xs 0) by lia. reflexivity.
      * cbn [length Nat.leb interpolate_all].
        rewrite interpolate_in_range by (done || lia). reflexivity.
    + cbn [mbind outcome_bind length Nat.leb interpolate_all].
      rewrite interpolate_in_range by (done || lia). reflexivity.
Qed.

(** X6: on inputs of equal length, [int2srt] raises numpy's "truth value
    of an array with more than one element is ambiguous" error exactly
    when the curve crosses the target at two or more places. *)
Theorem int2srt_raises_on_several_crossings (xs ys : Signal) (target : float) :
  length xs = length ys →
  (int2srt xs ys target = Raise ambiguous_truth
   ↔ ∃ i j, i ≠ j ∧ is_crossing ys target i ∧ is_crossing ys target j).
Proof.
  intros Hlen. rewrite <- crossings_two, (int2srt_by_crossings _ _ _ Hlen).
  destruct (crossings ys target) as [|i [|j r]].
  - split; [|intros (?&?&?&?); done].
    destruct ys; [done|]. by destruct (_ =? _)%float.
  - split; [|intros (?&?&?&?); done]. by destruct (_ && _).
  - split; [eauto | done].
Qed.

(** A curve that crosses 50 three times. *)
Lemma int2srt_raises_on_several_crossings_witness :
  int2srt [0; 1; 2; 3]%float [60; 40; 60; 40]%float 50%float
  = Raise ambiguous_truth
  ↔ ∃ i j, i ≠ j ∧ is_crossing [60; 40; 60; 40]%float 50%float i
           ∧ is_crossing [60; 40; 60; 40]%float 50%float j.
Proof.
  apply (int2srt_raises_on_several_crossings
           [0; 1; 2; 3]%float [60; 40; 60; 40]%float 50%float).
  reflexivity.
Defined.

(** X7: whenever [int2srt] returns, the inputs have the same length and
    are not empty, and the result tells the crossings: [None] means there
    is no crossing and the first [y] is not the target; a scalar is the
    first [x], returned when the first [y] equals the target and no
    crossing lies past index 0; an array holds the interpolated value of
    the only crossing. *)
Theorem int2srt_returns (xs ys : Signal) (target : float) (r : srt_result) :
  int2srt xs ys target = Ok r →
  length xs = length ys ∧ ys ≠ [] ∧
  match r with
  | SrtNone =>
      (∀ i, ¬ is_crossing ys target i) ∧ (item ys 0 =? target)%float = false
  | SrtScalar v =>
      v = item xs 0 ∧ (item ys 0 =? target)%float = true
      ∧ ∀ i, is_crossing ys target i → i = 0
  | SrtArray v =>
      ∃ i, v = [crossing_value xs ys target i] ∧ is_crossing ys target i
           ∧ ∀ j, is_crossing ys target j → j = i
  end.
Proof.
  intros H.
  assert (length xs = length ys) as Hlen.
  { destruct (decide (length xs = length ys)) as [|Hne]; [done|].
    unfold int2srt in H.
    destruct (Nat.eqb_spec (length xs) (length ys)); done. }
  split; [done|].
  rewrite (int2srt_by_crossings _ _ _ Hlen) in H.
  destruct (crossings ys target) as [|i [|j l]] eqn:E; [| |done].
  - destruct ys as [|y ys']; [done|]. split; [done|].
    assert (∀ i, ¬ is_crossing (y :: ys') target i) as Hno.
    { intros i Hi. apply crossings_spec in Hi. rewrite E in Hi.
      by apply elem_of_nil in Hi. }
    destruct (item (y :: ys') 0 =? target)%float eqn:Ey;
      injection H as <-; [|done].
    split; [done|]. split; [done|]. intros i Hi. by destruct (Hno i).
  - assert (is_crossing ys target i) as Hi
      by (apply crossings_spec; rewrite E; apply list_elem_of_here).
    assert (∀ j, is_crossing ys target j → j = i) as Huniq.
    { intros j Hj. apply crossings_spec in Hj. rewrite E in Hj.
      by apply list_elem_of_singleton in Hj. }
    split.
    { intros ->. destruct Hi as (H0 & H1 & _). simpl in H1. lia. }
    destruct (Z.eqb_spec i 0) as [->|Hne]; cbn [andb] in H.
    + destruct (item ys 0 =? target)%float eqn:Ey; injection H as <-.
      * done.
      * eauto.
    + injection H as <-. eauto.
Qed.

(** The documented use: a rising curve that crosses 50 between 40 and 60. *)
Lemma int2srt_returns_witness :
  length [0; 1; 2; 3]%float = length [20; 40; 60; 80]%float
  ∧ [20; 40; 60; 80]%float ≠ []
  ∧ ∃ i, [1.5]%float
         = [crossing_value [0; 1; 2; 3]%float [20; 40; 60; 80]%float 50%float i]
         ∧ is_crossing [20; 40; 60; 80]%float 50%float i
         ∧ ∀ j, is_crossing [20; 40; 60; 80]%float 50%float j → j = i.
Proof.
  apply (int2srt_returns [0; 1; 2; 3]%float [20; 40; 60; 80]%float 50%float
           (SrtArray [1.5]%float)).
  vm_compute. reflexivity.
Defined.

(** ** Preprocessing and the rows of one call of [append_results] *)

Section TableFacts.

Context {World : Type}.
Variable pow : float → float → float.
Implicit Types (self : Experiment World) (model : Model World).

Lemma append_results_fold (l : list (string * float))
    (acc : DataFrame * gmap string cell) :
  ∃ rows,
    (fold_left output_step l acc).1 = acc.1 ++ rows
    ∧ length rows = length l
    ∧ ∀ j nm v, l !! j = Some (nm, v) →
        ∃ row, rows !! j = Some row
               ∧ row !! _key_output = Some (CellStr nm)
               ∧ row !! _key_value = Some (CellFloat v)
               ∧ ∀ k, k ≠ _key_output → k ≠ _key_value →
                   row !! k = acc.2 !! k.
Proof.
  revert acc. induction l as [|[nm v] l IH]; intros acc.
  - exists []. rewrite app_nil_r. split; [done|]. split; [done|]. by intros [].
  - cbn [fold_left].
    destruct (IH (output_step acc (nm, v))) as (rows & Heq & Hlen & Hrows).
    exists ((output_step acc (nm, v)).2 :: rows).
    split; [rewrite Heq; cbn; by rewrite <- app_assoc|]. split; [simpl; lia|].
    intros [|j] nm' v' Hj.
    + injection Hj as <- <-. eexists. split; [done|]. cbn.
      split; [by rewrite lookup_insert_ne, lookup_insert_eq|].
      split; [by rewrite lookup_insert_eq|].
      intros k Hk1 Hk2. by rewrite !lookup_insert_ne.
    + destruct (Hrows j nm' v' Hj) as (row & Hr & Ho & Hv & Hk).
      exists row. split; [done|]. split; [done|]. split; [done|].
      intros k Hk1 Hk2. rewrite Hk by done. cbn. by rewrite !lookup_insert_ne.
Qed.

(** The table [append_results] returns: the old rows, then one row per
    output, each the dict [d] with that output's name and value. *)
Lemma append_results_rows self df r model (snr0 : float) i_target params kwargs :
  ∃ rows,
    append_results self df r model snr0 i_target params kwargs = df ++ rows
    ∧ length rows = length (p r)
    ∧ ∀ j nm v, p r !! j = Some (nm, v) →
        ∃ row, rows !! j = Some row
               ∧ row !! _key_output = Some (CellStr nm)
               ∧ row !! _key_value = Some (CellFloat v)
               ∧ ∀ k, k ≠ _key_output → k ≠ _key_value →
                   row !! k = condition_dict self r model snr0 i_target params !! k.
Proof.
  exact (append_results_fold (p r)
           (df, condition_dict self r model snr0 i_target params)).
Qed.

Lemma append_results_new_rows self df r model (snr0 : float) i_target params
    kwargs :
  Forall (λ row : gmap string cell,
            ∀ k, k ≠ _key_output → k ≠ _key_value →
              row !! k = condition_dict self r model snr0 i_target params !! k)
    (drop (length df)
       (append_results self df r model snr0 i_target params kwargs)).
Proof.
  destruct (append_results_rows self df r model snr0 i_target params kwargs)
    as (rows & -> & Hlen & Hrows).
  rewrite drop_app_length. apply Forall_lookup. intros j row Hj.
  assert (j < length (p r))%nat as Hjl
    by (rewrite <- Hlen; by eapply lookup_lt_Some).
  destruct (lookup_lt_is_Some_2 _ _ Hjl) as [[nm v] Hnv].
  destruct (Hrows j nm v Hnv) as (row' & Hr & _ & _ & Hk).
  by assert (row' = row) as -> by congruence.
Qed.

Lemma condition_dict_plain self r model (snr0 : float) i_target params :
  plain_params params →
  let d := condition_dict self r model snr0 i_target params in
  d !! _key_snr = Some (CellFloat snr0)
  ∧ d !! _key_models = Some (CellStr (model_name model))
  ∧ d !! _key_sent = Some (CellInt i_target)
  ∧ d !! _key_full_pred = Some (CellPrediction r)
  ∧ d !! _key_material = Some (CellStr (material_name (material self)))
  ∧ d !! _key_dist_params =
      Some (CellParams match params with
                       | ParamsList args => ParamsTuple args
                       | _ => params
                       end).
Proof.
  intros Hnd. unfold condition_dict.
  destruct params as [|kw|args|args]; [|by destruct (Hnd kw)|..];
    repeat match goal with |- _ ∧ _ => split end;
    by simplify_map_eq.
Qed.



(** The rows of the table [append_results] returns, for parameters that
    are not a dict. *)
Lemma append_results_elem self df r model (snr0 : float) i_target params
    kwargs (row : gmap string cell) :
  plain_params params →
  row ∈ append_results self df r model snr0 i_target params kwargs →
  row ∈ df
  ∨ row !! _key_snr = Some (CellFloat snr0)
    ∧ row !! _key_models = Some (CellStr (model_name model))
    ∧ row !! _key_sent = Some (CellInt i_target)
    ∧ row !! _key_full_pred = Some (CellPrediction r).
Proof.
  intros Hplain Hin.
  pose proof (append_results_new_rows self df r model snr0 i_target params
                kwargs) as Hnew.
  destruct (append_results_rows self df r model snr0 i_target params kwargs)
    as (rows & Heq & _). rewrite Heq in Hin, Hnew.
  rewrite drop_app_length in Hnew.
  apply elem_of_app in Hin as [?|Hin]; [by left|]. right.
  rewrite Forall_forall in Hnew. pose proof (Hnew _ Hin) as Hk.
  pose proof (condition_dict_plain self r model snr0 i_target params Hplain)
    as Hd.
  cbv zeta in Hd. destruct Hd as (H1 & H2 & H3 & H4 & _).
  rewrite !Hk by done. done.
Qed.

(** X8: with no distortion parameters (None, or an empty tuple, list or
    dict) [preprocessing] never fails, whatever the lengths of the
    signals: it returns the target set to the target level, a masker of
    the target's length, and their sample-by-sample sum as the mixture. *)
Theorem preprocessing_without_distortion self (target masker : Signal)
    (snr0 : float) params :
  params_truth params = false →
  ∃ mix m,
    preprocessing pow self target masker snr0 params
    = Ok (setdbspl pow target (target_level self snr0) false 100%float,
          mix, m)
    ∧ length m = length target
    ∧ length mix = length target
    ∧ mix = zip_with PrimFloat.add
              (setdbspl pow target (target_level self snr0) false 100%float) m.
Proof.
  intros Hp. unfold preprocessing. rewrite Hp.
  assert (∃ m0, (if negb (length target =? length masker)%nat
                 then make_same_length target masker false
                 else (target, masker)) = (target, m0)
                ∧ length m0 = length target) as (m0 & -> & Hm0).
  { destruct (Nat.eqb_spec (length target) (length masker)) as [E|E]; cbn [negb].
    - eauto.
    - unfold make_same_length.
      destruct (Nat.ltb_spec (length target) (length masker)).
      + eexists. split; [done|]. rewrite length_take. lia.
      + eexists. split; [done|].
        rewrite length_app, length_map, length_replicate. lia. }
  exists (zip_with PrimFloat.add
            (setdbspl pow target (target_level self snr0) false 100%float)
            (setdbspl pow m0 (masker_level self snr0) false 100%float)),
         (setdbspl pow m0 (masker_level self snr0) false 100%float).
  rewrite length_zip_with, !setdbspl_length, Hm0.
  split; [|split; [done|split; [lia|done]]].
  unfold adjust_levels, target_level, masker_level, np_add.
  destruct (adjust_levels_bef_proc self), (fixed_target self);
    cbn [negb mbind outcome_bind];
    rewrite !setdbspl_length, Hm0, Nat.eqb_refl; reflexivity.
Qed.

Lemma preprocessing_plain_returns self (target masker : Signal) (snr0 : float)
    params :
  params_truth params = false →
  ∃ t mix m, preprocessing pow self target masker snr0 params = Ok (t, mix, m).
Proof.
  intros Hp. unfold preprocessing. rewrite Hp.
  destruct (if negb _ then _ else _) as [t m] eqn:E.
  assert (length t = length m) as Hlen.
  { destruct (Nat.eqb_spec (length target) (length masker)) as [El|El];
      cbn [negb] in E.
    - by injection E as <- <-.
    - pose proof (f_equal (λ q, length q.1) E) as H1.
      pose proof (f_equal (λ q, length q.2) E) as H2. cbn in H1, H2.
      rewrite <- H1, <- H2. unfold make_same_length.
      destruct (Nat.ltb_spec (length target) (length masker)); cbn [fst snd].
      + rewrite length_take. lia.
      + rewrite length_app, length_map, length_replicate. lia. }
  unfold adjust_levels, np_add.
  destruct (adjust_levels_bef_proc self), (fixed_target self);
    cbn [negb mbind outcome_bind];
    rewrite !setdbspl_length, Hlen, Nat.eqb_refl; eauto.
Qed.

(** X9: with distortion parameters that are not empty and no distortion
    function set (the constructor's default), [preprocessing] raises the
    TypeError of calling [None]. *)
Theorem preprocessing_without_callable self (target masker : Signal)
    (snr0 : float) params :
  params_truth params = true → distortion self = None →
  preprocessing pow self target masker snr0 params
  = Raise (TypeError "'NoneType' object is not callable").
Proof.
  intros Hp Hd. unfold preprocessing. rewrite Hp, Hd.
  destruct (if negb _ then _ else _) as [t m].
  by destruct (if adjust_levels_bef_proc self then _ else _) as [t' m'].
Qed.

(** X10: [append_results] keeps the rows the table had, in place, and adds
    one row for each named output of the model; the keyword arguments do
    not change the count. *)
Theorem append_results_one_row_per_output self df r model (snr0 : float)
    i_target params kwargs :
  length (append_results self df r model snr0 i_target params kwargs)
  = (length df + length (p r))%nat
  ∧ take (length df)
      (append_results self df r model snr0 i_target params kwargs) = df.
Proof.
  destruct (append_results_rows self df r model snr0 i_target params kwargs)
    as (rows & -> & Hlen & _).
  rewrite length_app, Hlen, take_app_length. done.
Qed.

(** X11: the new rows list the outputs of the model in their order: the
    columns [Output] and [Value] of the rows [append_results] adds are the
    names and values of [res['p']]. *)
Theorem append_results_output_and_value self df r model (snr0 : float)
    i_target params kwargs :
  (λ row : gmap string cell, (row !! _key_output, row !! _key_value))
    <$> drop (length df)
          (append_results self df r model snr0 i_target params kwargs)
  = (λ nv, (Some (CellStr nv.1), Some (CellFloat nv.2))) <$> p r.
Proof.
  destruct (append_results_rows self df r model snr0 i_target params kwargs)
    as (rows & -> & Hlen & Hrows).
  rewrite drop_app_length. apply list_eq. intros j.
  rewrite !list_lookup_fmap.
  destruct (p r !! j) as [[nm v]|] eqn:E.
  - destruct (Hrows j nm v E) as (row & -> & Ho & Hv & _). cbn.
    by rewrite Ho, Hv.
  - apply lookup_ge_None in E. rewrite (lookup_ge_None_2 rows j) by lia. done.
Qed.

(** X12: when the distortion parameters are not a dict, every row
    [append_results] adds carries the SNR, the model's name, the sentence
    number, the whole model output and the material's name it was called
    with, and the parameters in the column [Distortion params], a list
    turned into a tuple. *)
Theorem append_results_metadata self df r model (snr0 : float) i_target params
    kwargs :
  plain_params params →
  Forall (λ row : gmap string cell,
            row !! _key_snr = Some (CellFloat snr0)
            ∧ row !! _key_models = Some (CellStr (model_name model))
            ∧ row !! _key_sent = Some (CellInt i_target)
            ∧ row !! _key_full_pred = Some (CellPrediction r)
            ∧ row !! _key_material
              = Some (CellStr (material_name (material self)))
            ∧ row !! _key_dist_params =
                Some (CellParams match params with
                                 | ParamsList args => ParamsTuple args
                                 | _ => params
                                 end))
    (drop (length df)
       (append_results self df r model snr0 i_target params kwargs)).
Proof.
  intros Hnd.
  eapply Forall_impl; [apply append_results_new_rows|]. intros row Hk. cbn in Hk.
  pose proof (condition_dict_plain self r model snr0 i_target params Hnd) as Hd.
  cbv zeta in Hd. destruct Hd as (H1 & H2 & H3 & H4 & H5 & H6).
  rewrite !Hk by done. done.
Qed.


(** X14: the rows added by one call of [append_results] differ in the
    columns [Output] and [Value] only. *)
Theorem append_results_rows_share_metadata self df r model (snr0 : float)
    i_target params kwargs :
  Forall (λ row1 : gmap string cell,
    Forall (λ row2 : gmap string cell,
      ∀ k, k ≠ _key_output → k ≠ _key_value → row1 !! k = row2 !! k)
      (drop (length df)
         (append_results self df r model snr0 i_target params kwargs)))
    (drop (length df)
       (append_results self df r model snr0 i_target params kwargs)).
Proof.
  pose proof (append_results_new_rows self df r model snr0 i_target params
                kwargs) as H.
  rewrite Forall_forall in H.
  apply Forall_forall. intros row1 H1. apply Forall_forall. intros row2 H2.
  intros k Hk1 Hk2. by rewrite (H _ H1), (H _ H2).
Qed.

End TableFacts.

(** The scripted experiment, with no distortion parameters. *)
Lemma preprocessing_without_distortion_witness :
  ∃ mix m,
    preprocessing pow_series script_experiment [3; 4]%float [1; 2; 2]%float
      20%float ParamsNone
    = Ok (setdbspl pow_series [3; 4]%float
            (target_level script_experiment 20%float) false 100%float,
          mix, m)
    ∧ length m = length [3; 4]%float
    ∧ length mix = length [3; 4]%float
    ∧ mix = zip_with PrimFloat.add
              (setdbspl pow_series [3; 4]%float
                 (target_level script_experiment 20%float) false 100%float) m.
Proof.
  apply (preprocessing_without_distortion pow_series script_experiment
           [3; 4]%float [1; 2; 2]%float 20%float ParamsNone).
  reflexivity.
Defined.

(** The scripted experiment has no distortion function. *)
Lemma preprocessing_without_callable_witness :
  preprocessing pow_series script_experiment [3; 4]%float [1; 2; 2]%float
    20%float (ParamsTuple [PyInt 1])
  = Raise (TypeError "'NoneType' object is not callable").
Proof.
  apply (preprocessing_without_callable pow_series script_experiment
           [3; 4]%float [1; 2; 2]%float 20%float (ParamsTuple [PyInt 1]));
    reflexivity.
Defined.

(** Two outputs appended to an empty table, with no parameters. *)
Lemma append_results_metadata_witness :
  Forall (λ row : gmap string cell,
            row !! _key_snr = Some (CellFloat 20%float)
            ∧ row !! _key_models = Some (CellStr (model_name script_model))
            ∧ row !! _key_sent = Some (CellInt 0)
            ∧ row !! _key_full_pred = Some (CellPrediction two_outputs)
            ∧ row !! _key_material
              = Some (CellStr (material_name (material script_experiment)))
            ∧ row !! _key_dist_params = Some (CellParams ParamsNone))
    (drop (length ([] : DataFrame))
       (append_results script_experiment [] two_outputs script_model 20%float
          0 ParamsNone [])).
Proof.
  apply (append_results_metadata script_experiment [] two_outputs script_model
           20%float 0 ParamsNone []).
  intros kw. discriminate.
Defined.


(** ** The fixed-SNR run ([Experiment._single_run]) *)

Section SequentialFacts.

Context {World : Type}.
Variable pow : float → float → float.
Variable np_random_seed : Z → World → World.
Implicit Types (self : Experiment World) (model : Model World).

Lemma output_fold_prefix (l : list (string * float)) (df1 df2 : DataFrame)
    (d : gmap string cell) :
  (fold_left output_step l (df1 ++ df2, d)).1
  = df1 ++ (fold_left output_step l (df2, d)).1.
Proof.
  revert df2 d. induction l as [|nv l IH]; intros df2 d; [done|].
  cbn [fold_left]. unfold output_step at 2 4. cbn [fst snd].
  rewrite <- app_assoc. apply IH.
Qed.

Lemma append_results_prefix self df r model (snr0 : float) i_target params
    kwargs :
  append_results self df r model snr0 i_target params kwargs
  = df ++ append_results self [] r model snr0 i_target params kwargs.
Proof.
  pose proof (output_fold_prefix (p r) df []
                (condition_dict self r model snr0 i_target params)) as H.
  rewrite app_nil_r in H. exact H.
Qed.

(** X15: one pass of the loop of [_single_run] adds to the table exactly
    the rows [_predict] returns for the same condition in the same world,
    and fails when [_predict] fails. *)
Theorem single_run_step_appends_predict self i_target (target : Signal) params
    (snr0 : float) model df w :
  single_run_step pow self ((i_target, target), params, snr0, model) df w
  = '(rows, w') ← _predict pow self (i_target, target) snr0 model params w;
    Ok (df ++ rows, w').
Proof.
  unfold single_run_step, _predict, _model_prediction, prediction.
  destruct (next_masker _ _ _ _) as [masker w0].
  destruct (preprocessing _ _ _ _ _ _) as [[[t mix] m]| |];
    cbn [mbind outcome_bind]; [|done..].
  destruct (predict _ _ _ _ _) as [r w1]. cbn [mbind outcome_bind].
  by rewrite append_results_prefix.
Qed.

Lemma single_run_loop_length self (k : nat) conditions df w df' w' :
  single_run_loop pow self conditions df w = Ok (df', w') →
  Forall (λ c : Condition, gives_outputs k c.2) conditions →
  length df' = (length df + k * length conditions)%nat.
Proof.
  revert df w. induction conditions as [|c cs IH]; intros df w Hrun Hk.
  - cbn in Hrun. injection Hrun as <- _. simpl. lia.
  - apply Forall_cons in Hk as [Hc Hk]. cbn [single_run_loop] in Hrun.
    destruct (single_run_step _ _ _ _ _) as [[df1 w1]| |] eqn:Es;
      cbn [mbind outcome_bind] in Hrun; [|done..].
    rewrite (IH _ _ Hrun Hk).
    destruct c as [[[[i_target target] params] snr0] model].
    unfold single_run_step in Es.
    destruct (next_masker _ _ _ _) as [masker w0].
    destruct (preprocessing _ _ _ _ _ _) as [[[t mix] m]| |];
      cbn [mbind outcome_bind] in Es; [|done..].
    unfold prediction in Es.
    pose proof (Hc t mix m w0) as Hlen. cbn [snd] in Hlen.
    destruct (predict _ _ _ _ _) as [r w2]. cbn [fst] in Hlen.
    injection Es as <- _.
    destruct (append_results_rows self df r model snr0 i_target params [])
      as (rows & -> & Hrows & _).
    rewrite length_app, Hrows, Hlen. simpl. lia.
Qed.

Lemma flat_map_const_length {A B} (f : A → list B) (l : list A) (n : nat) :
  (∀ x, length (f x) = n) → length (flat_map f l) = (length l * n)%nat.
Proof.
  intros Hf. induction l as [|x l IH]; [done|].
  cbn [flat_map length]. rewrite length_app, IH, Hf. lia.
Qed.

Lemma product4_length {A B C D} (a : list A) (b : list B) (c : list C)
    (d : list D) :
  length (product4 a b c d) = (length a * length b * length c * length d)%nat.
Proof.
  unfold product4.
  rewrite (flat_map_const_length _ a (length b * (length c * length d))); [lia|].
  intros x. rewrite (flat_map_const_length _ b (length c * length d)); [lia|].
  intros y. rewrite (flat_map_const_length _ c (length d)); [lia|].
  intros z. apply length_map.
Qed.

Lemma product4_elem {A B C D} (a : list A) (b : list B) (c : list C)
    (d : list D) x y z u :
  (x, y, z, u) ∈ product4 a b c d → x ∈ a ∧ y ∈ b ∧ z ∈ c ∧ u ∈ d.
Proof.
  unfold product4. rewrite !list_elem_of_In.
  intros H. apply in_flat_map in H as (x' & Hx & H).
  apply in_flat_map in H as (y' & Hy & H).
  apply in_flat_map in H as (z' & Hz & H).
  apply in_map_iff in H as (u' & [= <- <- <- <-] & Hu). done.
Qed.

Lemma product3_length {A B C} (a : list A) (b : list B) (c : list C) :
  length (product3 a b c) = (length a * length b * length c)%nat.
Proof.
  unfold product3.
  rewrite (flat_map_const_length _ a (length b * length c)); [lia|].
  intros x. rewrite (flat_map_const_length _ b (length c)); [lia|].
  intros y. apply length_map.
Qed.

Lemma enumerate_length {A} (l : list A) : length (enumerate l) = length l.
Proof. unfold enumerate. apply length_imap. Qed.

Lemma enumerate_elem {A} (l : list A) (i : Z) (a : A) :
  (i, a) ∈ enumerate l → 0 ≤ i < Z.of_nat (length l).
Proof.
  unfold enumerate. intros H. apply list_elem_of_lookup in H as [j Hj].
  rewrite list_lookup_imap in Hj.
  destruct (l !! j) eqn:E; [|done]. injection Hj as <- _.
  apply lookup_lt_Some in E. lia.
Qed.

Lemma conditions_of_length self (targets : list Signal) :
  length (conditions_of self targets)
  = (length targets * length (dist_params self) * length (snrs self)
     * length (models self))%nat.
Proof.
  rewrite <- (enumerate_length targets). apply product4_length.
Qed.

(** X16: when every model gives [k] named outputs, a sequential run that
    returns has [k] rows for each combination of a loaded sentence, a set
    of distortion parameters, an SNR and a model. *)
Theorem single_run_row_count self n seed w df w' (k : nat) :
  _single_run pow np_random_seed self n seed w = Ok (df, w') →
  Forall (gives_outputs k) (models self) →
  length df =
    (k * (length (load_files (material self) n (np_random_seed seed w)).1
          * length (dist_params self) * length (snrs self)
          * length (models self)))%nat.
Proof.
  unfold _single_run. intros Hrun Hk.
  destruct (load_files _ _ _) as [targets w0]. cbn [fst].
  apply (single_run_loop_length self k) in Hrun.
  - rewrite Hrun, conditions_of_length. simpl. lia.
  - apply Forall_forall. intros [[[it params] snr0] model] Hc.
    apply product4_elem in Hc as (_ & _ & _ & Hm). cbn.
    rewrite Forall_forall in Hk. by apply Hk.
Qed.

Lemma single_run_loop_rows self (targets : list Signal) conditions df w df' w' :
  single_run_loop pow self conditions df w = Ok (df', w') →
  Forall (λ c : Condition,
            c.1.1.1 ∈ enumerate targets ∧ plain_params c.1.1.2
            ∧ c.1.2 ∈ snrs self ∧ c.2 ∈ models self) conditions →
  Forall (condition_row self targets) df →
  Forall (condition_row self targets) df'.
Proof.
  revert df w. induction conditions as [|c cs IH]; intros df w Hrun Hc Hdf.
  - cbn in Hrun. by injection Hrun as <- _.
  - apply Forall_cons in Hc as [(Ht & Hp & Hs & Hm) Hcs].
    cbn [single_run_loop] in Hrun.
    destruct (single_run_step _ _ _ _ _) as [[df1 w1]| |] eqn:Es;
      cbn [mbind outcome_bind] in Hrun; [|done..].
    apply (IH _ _ Hrun Hcs).
    destruct c as [[[[i_target target] params] snr0] model]. cbn in *.
    unfold single_run_step in Es.
    destruct (next_masker _ _ _ _) as [masker w0].
    destruct (preprocessing _ _ _ _ _ _) as [[[t mix] m]| |];
      cbn [mbind outcome_bind] in Es; [|done..].
    destruct (prediction _ _ _ _ _) as [r w2]. injection Es as <- _.
    apply Forall_forall. intros row Hrow.
    destruct (append_results_elem _ _ _ _ _ _ _ _ _ Hp Hrow)
      as [Hold|(H1 & H2 & H3 & _)].
    + rewrite Forall_forall in Hdf. by apply Hdf.
    + exists snr0, model, i_target.
      pose proof (enumerate_elem _ _ _ Ht).
      split; [done|]. split; [done|]. split; [done|]. split; [done|].
      split; [done|]. lia.
Qed.

(** X17: when no set of distortion parameters is a dict, every row of the
    table of a sequential run names one of the experiment's SNRs, one of
    its models and the index of one of the loaded sentences. *)
Theorem single_run_rows_carry_their_condition self n seed w df w' :
  _single_run pow np_random_seed self n seed w = Ok (df, w') →
  Forall plain_params (dist_params self) →
  Forall (condition_row self
            (load_files (material self) n (np_random_seed seed w)).1) df.
Proof.
  unfold _single_run. intros Hrun Hp.
  destruct (load_files _ _ _) as [targets w0]. cbn [fst].
  eapply single_run_loop_rows; [exact Hrun| |done].
  apply Forall_forall. intros [[[it params] snr0] model] Hc.
  apply product4_elem in Hc as (Ht & Hpa & Hs & Hm). cbn.
  rewrite Forall_forall in Hp. auto.
Qed.

End SequentialFacts.

(** A run that returned, and its table. *)
Lemma table_of_ok {W} (m : outcome (DataFrame * W)) :
  (match m with Ok _ => true | _ => false end) = true →
  ∃ w', m = Ok (table_of m, w').
Proof. destruct m as [[df w]| |]; [eauto|done..]. Qed.

(** The sweep over three SNRs with the scripted model: three rows. *)
Lemma single_run_row_count_witness :
  length sweep_table =
    (1 * (length (load_files (material sweep_experiment) None
                    (script_seed 0 script)).1
          * length (dist_params sweep_experiment)
          * length (snrs sweep_experiment)
          * length (models sweep_experiment)))%nat.
Proof.
  destruct (table_of_ok sweep_run) as [w' Hrun]; [vm_compute; reflexivity|].
  apply (single_run_row_count pow_series script_seed sweep_experiment None 0
           script sweep_table w' 1 Hrun).
  apply Forall_singleton. intros t mix m w. by destruct w.
Defined.

Lemma single_run_rows_carry_their_condition_witness :
  Forall (condition_row sweep_experiment
            (load_files (material sweep_experiment) None
               (script_seed 0 script)).1) sweep_table.
Proof.
  destruct (table_of_ok sweep_run) as [w' Hrun]; [vm_compute; reflexivity|].
  apply (single_run_rows_carry_their_condition pow_series script_seed
           sweep_experiment None 0 script sweep_table w' Hrun).
  apply Forall_singleton. intros kw. discriminate.
Defined.

(** ** Bounds and invariants of the staircase *)

Section StaircaseBounds.

Context {World : Type}.
Variable pow : float → float → float.
Variable np_random_seed : Z → World → World.
Implicit Types (self : AdaptiveExperiment World) (model : Model World).
Implicit Types (st : Locals) (w : World) (params : Params).

Lemma py_getitem_elem {A} (l : list A) (i : Z) (a : A) :
  py_getitem l i = Ok a → a ∈ l.
Proof.
  unfold py_getitem. destruct (_ && _); [|done].
  destruct (l !! _) as [b|] eqn:E; [|done].
  intros [= <-]. by eapply list_elem_of_lookup_2.
Qed.

Lemma py_getitem_nonneg {A} (l : list A) (i : Z) (a : A) :
  py_getitem l i = Ok a → 0 ≤ i → i < Z.of_nat (length l).
Proof.
  unfold py_getitem. intros H Hi.
  destruct (Z.ltb_spec i 0); [lia|].
  destruct (Z.leb_spec 0 i); [|lia].
  destruct (Z.ltb_spec i (Z.of_nat (length l))); [done|done].
Qed.

Lemma dict_getitem_missing {V} (d : list (string * V)) (key : string) :
  key ∉ d.*1 → dict_getitem d key = Raise (KeyError key).
Proof.
  induction d as [|[k v] d IH]; intros Hk; [done|]. cbn.
  destruct (String.eqb_spec k key) as [->|Hne].
  - exfalso. apply Hk. cbn. by left.
  - apply IH. intros ?. apply Hk. cbn. by right.
Qed.

(** What one pass does to the SNR and the step index. *)
Lemma update_step self threshold pred st st' :
  update self threshold pred st = Ok st' →
  ∃ step,
    py_getitem (step_sizes self) (i_step st) = Ok step
    ∧ snr st' = (if (threshold <=? pred)%float then snr st - step
                 else snr st + step)%float
    ∧ (i_step st' = i_step st
       ∨ i_step st' = Z.min (i_step st + 1)
                        (Z.of_nat (length (step_sizes self)) - 1)).
Proof.
  unfold update.
  destruct (threshold <=? pred)%float;
    (destruct (py_getitem (step_sizes self) (i_step st)) as [s| |] eqn:Es;
     cbn [mbind outcome_bind]; [|done..]).
  - destruct (0 <? last_reversal_sign st); intros [= <-]; cbn; eauto.
  - destruct (last_reversal_sign st <? 0); intros [= <-]; cbn; eauto.
Qed.

(** A property that every pass establishes, given an invariant of the
    passes, holds when a loop that made at least one pass ends. *)
Lemma while_loop_after_pass (J P : Locals → Prop) fuel self model pred_key
    threshold params st w st' w' :
  (∀ st0 w0 st1 w1, J st0 →
     loop_body pow self model pred_key threshold params st0 w0 = Ok (st1, w1) →
     J st1 ∧ P st1) →
  J st →
  test_reversals st ≤ n_test_reversals self →
  while_loop pow fuel self model pred_key threshold params st w = Ok (st', w') →
  P st'.
Proof.
  intros Hbody. revert st w. induction fuel as [|fuel IH]; intros st w HJ Hle.
  - simpl. destruct (Z.leb_spec (test_reversals st) (n_test_reversals self));
      [done|lia].
  - rewrite while_loop_unfold.
    destruct (Z.leb_spec (test_reversals st) (n_test_reversals self)); [|lia].
    destruct (loop_body _ _ _ _ _ _ _ _) as [[st1 w1]| |] eqn:Eb;
      cbn [mbind outcome_bind]; [|done..].
    destruct (Hbody _ _ _ _ HJ Eb) as [HJ1 HP1].
    destruct (Z.le_gt_cases (test_reversals st1) (n_test_reversals self)).
    + by apply IH.
    + intros Hloop. destruct fuel; simpl in Hloop;
        (destruct (Z.leb_spec (test_reversals st1) (n_test_reversals self));
         [lia|]); by injection Hloop as <- _.
Qed.

(** Every entry of the trace comes from a group whose loop made at least
    one pass. *)
Lemma run_groups_entries fuel self groups df res_prev trace w df' trace' w'
    (e : Locals * float) :
  run_groups pow fuel self groups df res_prev trace w = Ok (df', trace', w') →
  res_prev = None ∨ 0 ≤ n_test_reversals self →
  e ∈ trace' →
  e ∈ trace
  ∨ 0 ≤ n_test_reversals self
    ∧ ∃ i_target target0 params model pred_key threshold masker0 rp w0 w1,
        (i_target, target0, params, (model, (pred_key, threshold))) ∈ groups
        ∧ while_loop pow fuel self model pred_key threshold params
            (staircase_init self target0 masker0 rp) w0 = Ok (e.1, w1)
        ∧ e.2 = srt_of self e.1.
Proof.
  revert df res_prev trace w.
  induction groups as [|g groups IH]; intros df res_prev trace w Hrun Hprev He.
  - cbn in Hrun. injection Hrun as _ <- _. by left.
  - cbn [run_groups] in Hrun.
    destruct (run_group _ _ _ _ _ _ _) as [[[[df1 st] srt] w1]| |] eqn:Eg;
      cbn [mbind outcome_bind] in Hrun; [|done..].
    pose proof (run_group_effect _ _ _ _ _ _ _ _ _ _ _ Eg Hprev) as (_ & Hn & _).
    destruct (IH _ _ _ _ Hrun (or_intror Hn) He) as [Hin|(_ & Hd)].
    + apply elem_of_app in Hin as [Hin|Hin]; [by left|].
      apply list_elem_of_singleton in Hin as ->. right. split; [done|].
      destruct g as [[[i_target target0] params] [model [pred_key threshold]]].
      unfold run_group in Eg.
      destruct (next_masker _ _ _ _) as [masker0 w0].
      destruct (while_loop _ _ _ _ _ _ _ _ _) as [[st1 w2]| |] eqn:El;
        cbn [mbind outcome_bind] in Eg; [|done..].
      destruct (res st1); cbn [mbind outcome_bind] in Eg; [|done].
      injection Eg as _ <- <- _.
      exists i_target, target0, params, model, pred_key, threshold, masker0,
        res_prev, w0, w2.
      split; [left|]. done.
    + right. split; [done|].
      destruct Hd as (i & t & pa & m & k & th & m0 & rp & w0 & w2 & Hg & Hl).
      exists i, t, pa, m, k, th, m0, rp, w0, w2. split; [by right|done].
Qed.

Lemma run_traced_entries fuel self n seed w df trace w' (e : Locals * float) :
  run_traced pow np_random_seed fuel self n seed w = Ok (df, trace, w') →
  e ∈ trace →
  0 ≤ n_test_reversals self
  ∧ ∃ model pred_key threshold params target0 masker0 rp w0 w1,
      model ∈ models self
      ∧ while_loop pow fuel self model pred_key threshold params
          (staircase_init self target0 masker0 rp) w0 = Ok (e.1, w1)
      ∧ e.2 = srt_of self e.1.
Proof.
  unfold run_traced. destruct (load_files _ _ _) as [targets w0].
  intros Hrun He.
  destruct (run_groups_entries _ _ _ _ _ _ _ _ _ _ e Hrun (or_introl eq_refl) He)
    as [Hin|(Hn & i & t & pa & m & k & th & m0 & rp & w1 & w2 & Hg & Hl)];
    [by apply elem_of_nil in Hin|].
  split; [done|]. exists m, k, th, pa, t, m0, rp, w1, w2. split; [|done].
  unfold groups_of, product3 in Hg. rewrite list_elem_of_In in Hg.
  apply in_flat_map in Hg as (x & _ & Hg).
  apply in_flat_map in Hg as (y & _ & Hg).
  apply in_map_iff in Hg as (z & [= _ _ ->] & Hz).
  apply list_elem_of_In in Hz. by apply elem_of_zip_l in Hz.
Qed.

Lemma loop_body_step_index self model pred_key threshold params st w st' w' :
  loop_body pow self model pred_key threshold params st w = Ok (st', w') →
  0 ≤ i_step st →
  i_step st ≤ i_step st' < Z.of_nat (length (step_sizes self)).
Proof.
  unfold loop_body. intros Hb Hi.
  destruct (evaluate _ _ _ _ _ _ _) as [[[st1 pred] w1]| |] eqn:Ev;
    cbn [mbind outcome_bind] in Hb; [|done..].
  destruct (update _ _ _ _) as [st2| |] eqn:Eu;
    cbn [mbind outcome_bind] in Hb; [|done..].
  injection Hb as <- _.
  assert (i_step st1 = i_step st) as Hst1.
  { unfold evaluate in Ev.
    destruct (preprocessing _ _ _ _ _ _) as [[[t mix] m]| |];
      cbn [mbind outcome_bind] in Ev; [|done..].
    destruct (prediction _ _ _ _ _) as [r w2].
    destruct (dict_getitem _ _); cbn [mbind outcome_bind] in Ev; [|done..].
    by injection Ev as <- _ _. }
  destruct (update_step _ _ _ _ _ Eu) as (step & Hs & _ & Hi').
  rewrite Hst1 in Hs, Hi'.
  pose proof (py_getitem_nonneg _ _ _ Hs Hi). lia.
Qed.

(** X18: with a step index inside the schedule, [update] does not fail,
    and the new step index is inside the schedule and not smaller than the
    old one. *)
Theorem update_in_bounds self threshold pred st :
  0 ≤ i_step st < Z.of_nat (length (step_sizes self)) →
  ∃ st', update self threshold pred st = Ok st'
         ∧ i_step st ≤ i_step st' < Z.of_nat (length (step_sizes self)).
Proof.
  intros Hi. unfold update.
  destruct (py_getitem_cases (step_sizes self) (i_step st)) as [[s Hs]|Hs].
  2:{ unfold py_getitem in Hs.
      destruct (Z.ltb_spec (i_step st) 0); [lia|].
      destruct (Z.leb_spec 0 (i_step st)); [|lia].
      destruct (Z.ltb_spec (i_step st) (Z.of_nat (length (step_sizes self))));
        [|lia].
      cbn in Hs. destruct (step_sizes self !! _) eqn:E; [done|].
      apply lookup_ge_None in E. lia. }
  rewrite Hs.
  destruct (threshold <=? pred)%float; cbn [mbind outcome_bind].
  - destruct (0 <? last_reversal_sign st); eexists; (split; [done|]); cbn; lia.
  - destruct (last_reversal_sign st <? 0); eexists; (split; [done|]); cbn; lia.
Qed.

(** X19: a pass changes the direction, the count of test reversals and the
    step index only when the direction flips: either all three are kept,
    or the direction has changed, to ascending after a prediction below
    the threshold, to descending after one that meets it. *)
Theorem update_changes_only_on_flip self threshold pred st st' :
  update self threshold pred st = Ok st' →
  (last_reversal_sign st' = last_reversal_sign st
   ∧ test_reversals st' = test_reversals st ∧ i_step st' = i_step st)
  ∨ (last_reversal_sign st' ≠ last_reversal_sign st
     ∧ (last_reversal_sign st' = 1 ∧ (threshold <=? pred)%float = false
        ∨ last_reversal_sign st' = -1 ∧ (threshold <=? pred)%float = true)).
Proof.
  unfold update.
  destruct (threshold <=? pred)%float;
    (destruct (py_getitem (step_sizes self) (i_step st)) as [s| |];
     cbn [mbind outcome_bind]; [|done..]).
  - destruct (Z.ltb_spec 0 (last_reversal_sign st)); intros [= <-]; cbn.
    + right. split; [lia|]. by right.
    + by left.
  - destruct (Z.ltb_spec (last_reversal_sign st) 0); intros [= <-]; cbn.
    + right. split; [lia|]. by left.
    + by left.
Qed.

(** X20: with a schedule of one step size the step index stays 0 and
    every change of direction counts as a test reversal. *)
Theorem single_step_schedule_counts_every_flip self threshold pred st st' :
  length (step_sizes self) = 1%nat →
  i_step st = 0 →
  update self threshold pred st = Ok st' →
  i_step st' = 0
  ∧ (last_reversal_sign st' ≠ last_reversal_sign st →
     test_reversals st' = test_reversals st + 1).
Proof.
  intros Hlen Hi Hup. unfold update in Hup. rewrite Hlen in Hup.
  destruct (threshold <=? pred)%float;
    (destruct (py_getitem (step_sizes self) (i_step st)) as [s| |];
     cbn [mbind outcome_bind] in Hup; [|done..]).
  - destruct (Z.ltb_spec 0 (last_reversal_sign st)); injection Hup as <-; cbn;
      rewrite ?Hi; cbn; (split; [done|]); [done|]. intros Hne. done.
  - destruct (Z.ltb_spec (last_reversal_sign st) 0); injection Hup as <-; cbn;
      rewrite ?Hi; cbn; (split; [done|]); [done|]. intros Hne. done.
Qed.

(** X21: when the model's output has no entry named [pred_key], the first
    pass of the staircase raises the KeyError of that key, after the
    preprocessing and the prediction have run. *)
Theorem missing_prediction_key_raises fuel self model pred_key threshold params
    st w (t mix m : Signal) :
  test_reversals st ≤ n_test_reversals self →
  preprocessing pow self (target st) (masker st) (snr st) params
  = Ok (t, mix, m) →
  pred_key ∉ (p (predict model t mix m w).1).*1 →
  while_loop pow (S fuel) self model pred_key threshold params st w
  = Raise (KeyError pred_key).
Proof.
  intros Hle Hp Hk. rewrite while_loop_unfold.
  destruct (Z.leb_spec (test_reversals st) (n_test_reversals self)); [|lia].
  unfold loop_body, evaluate, prediction. rewrite Hp. cbn [mbind outcome_bind].
  destruct (predict model t mix m w) as [r w1]. cbn [fst] in Hk.
  by rewrite (dict_getitem_missing _ _ Hk).
Qed.

(** X22: at the exit of every staircase of a run, [total_reversals] is
    the number of passes made, which is the length of the history
    [all_res], and the staircase made more passes than
    [n_test_reversals]. *)
Theorem total_reversals_is_pass_count fuel self n seed w df trace w' st srt :
  run_traced pow np_random_seed fuel self n seed w = Ok (df, trace, w') →
  (st, srt) ∈ trace →
  total_reversals st = Z.of_nat (length (all_res st))
  ∧ n_test_reversals self + 1 ≤ Z.of_nat (length (all_res st)).
Proof.
  intros Hrun Hin. apply run_traced_trace in Hrun.
  rewrite Forall_forall in Hrun. destruct (Hrun _ Hin) as (_ & _ & ? & ?).
  done.
Qed.

(** X23: the history of a staircase that ended is not empty, and the SNR
    the staircase ends with is the last SNR of the history moved down or
    up by one of the step sizes. *)
Theorem final_snr_is_one_step_past_history fuel self n seed w df trace w'
    st srt :
  run_traced pow np_random_seed fuel self n seed w = Ok (df, trace, w') →
  (st, srt) ∈ trace →
  ∃ older s pred step,
    all_res st = older ++ [(s, pred)]
    ∧ step ∈ step_sizes self
    ∧ (snr st = (s - step)%float ∨ snr st = (s + step)%float).
Proof.
  intros Hrun Hin.
  destruct (run_traced_entries _ _ _ _ _ _ _ _ _ Hrun Hin)
    as (Hn & m & k & th & pa & t0 & m0 & rp & w0 & w1 & _ & Hloop & _).
  cbn [fst] in Hloop.
  set (P := λ st : Locals, ∃ older s pred step,
              all_res st = older ++ [(s, pred)]
              ∧ step ∈ step_sizes self
              ∧ (snr st = (s - step)%float ∨ snr st = (s + step)%float)).
  change (P st).
  eapply (while_loop_after_pass (λ _, True) P);
    [|exact I| |exact Hloop]; [|cbn; lia].
  intros st0 wa st1 wb _ Hb. split; [done|]. unfold P.
  unfold loop_body in Hb.
  destruct (evaluate _ _ _ _ _ _ _) as [[[st2 pred] w2]| |] eqn:Ev;
    cbn [mbind outcome_bind] in Hb; [|done..].
  destruct (update _ _ _ _) as [st3| |] eqn:Eu;
    cbn [mbind outcome_bind] in Hb; [|done..].
  injection Hb as <- _.
  destruct (update_step _ _ _ _ _ Eu) as (step & Hs & Hsnr & _).
  apply update_effect in Eu as (Hall & _).
  exists (all_res st2), (snr st2), pred, step.
  split; [done|]. split; [by eapply py_getitem_elem|].
  rewrite Hsnr. destruct (th <=? pred)%float; eauto.
Qed.

(** X24: at the exit of every staircase of a run that returned, the step
    index is inside the schedule. *)
Theorem step_index_valid_at_exit fuel self n seed w df trace w' st srt :
  run_traced pow np_random_seed fuel self n seed w = Ok (df, trace, w') →
  (st, srt) ∈ trace →
  0 ≤ i_step st < Z.of_nat (length (step_sizes self)).
Proof.
  intros Hrun Hin.
  destruct (run_traced_entries _ _ _ _ _ _ _ _ _ Hrun Hin)
    as (Hn & m & k & th & pa & t0 & m0 & rp & w0 & w1 & _ & Hloop & _).
  cbn [fst] in Hloop.
  set (P := λ st : Locals,
              0 ≤ i_step st < Z.of_nat (length (step_sizes self))).
  change (P st).
  eapply (while_loop_after_pass (λ st, 0 ≤ i_step st) P);
    [| |  |exact Hloop]; [|cbn; lia|cbn; lia].
  intros st0 wa st1 wb HJ Hb. unfold P.
  pose proof (loop_body_step_index _ _ _ _ _ _ _ _ _ Hb HJ). lia.
Qed.

(** X25: with [n_test_reversals = 0] the slice [all_res[-0:]] is the
    whole history, and the SRT of every staircase is the mean of all the
    SNRs it presented. *)
Theorem srt_with_no_test_reversals_is_mean_of_history fuel self n seed w df
    trace w' st srt :
  run_traced pow np_random_seed fuel self n seed w = Ok (df, trace, w') →
  (st, srt) ∈ trace →
  n_test_reversals self = 0 →
  srt = np_mean (map fst (all_res st)).
Proof.
  intros Hrun Hin Hn. apply run_traced_trace in Hrun.
  rewrite Forall_forall in Hrun. destruct (Hrun _ Hin) as (_ & Hsrt & _).
  cbn [fst snd] in Hsrt. rewrite Hsrt. unfold srt_of, py_slice_from.
  rewrite Hn. change (- 0 <? 0) with false. cbv iota.
  rewrite Z.min_l by lia. done.
Qed.

End StaircaseBounds.

(** ** The table of the adaptive run *)

Section AdaptiveTable.

Context {World : Type}.
Variable pow : float → float → float.
Variable np_random_seed : Z → World → World.
Implicit Types (self : AdaptiveExperiment World) (model : Model World).
Implicit Types (st : Locals) (w : World) (params : Params).

Lemma groups_of_length self (targets : list Signal) :
  length (groups_of self targets)
  = (length targets * length (dist_params self)
     * (length (models self) `min` length (pred_keys_and_thresholds self)))%nat.
Proof.
  pose proof (product3_length (enumerate targets) (dist_params self)
                (zip (models self) (pred_keys_and_thresholds self))) as H.
  rewrite enumerate_length, length_zip in H. exact H.
Qed.

Lemma loop_body_res self model pred_key threshold params st w st' w' :
  loop_body pow self model pred_key threshold params st w = Ok (st', w') →
  ∃ t mix m w0, res st' = Some (predict model t mix m w0).1.
Proof.
  unfold loop_body, evaluate, prediction. intros Hb.
  destruct (preprocessing _ _ _ _ _ _) as [[[t mix] m]| |];
    cbn [mbind outcome_bind] in Hb; [|done..].
  destruct (predict model t mix m w) as [r w1] eqn:Ep.
  destruct (dict_getitem _ _) as [v| |]; cbn [mbind outcome_bind] in Hb;
    [|done..].
  destruct (update _ _ _ _) as [st2| |] eqn:Eu;
    cbn [mbind outcome_bind] in Hb; [|done..].
  injection Hb as <- _.
  apply update_effect in Eu as (_ & _ & _ & _ & _ & ->). cbn.
  exists t, mix, m, w. by rewrite Ep.
Qed.

Lemma run_group_rows fuel self i_target (target0 : Signal) params model
    pred_key (threshold : float) df res_prev w df' st srt w' :
  run_group pow fuel self
    (i_target, target0, params, (model, (pred_key, threshold)))
    df res_prev w = Ok (df', st, srt, w') →
  res_prev = None ∨ 0 ≤ n_test_reversals self →
  ∃ r t mix m w0,
    res st = Some r ∧ r = (predict model t mix m w0).1
    ∧ df' = append_results self df r model (snr st) i_target params
              [("SRT"%string, CellFloat srt);
               ("Reversals"%string, CellInt (total_reversals st))].
Proof.
  intros Hg Hprev.
  pose proof (run_group_effect _ _ _ _ _ _ _ _ _ _ _ Hg Hprev) as (_ & Hn & _).
  unfold run_group in Hg.
  destruct (next_masker _ _ _ _) as [masker0 w0].
  destruct (while_loop _ _ _ _ _ _ _ _ _) as [[st1 w2]| |] eqn:El;
    cbn [mbind outcome_bind] in Hg; [|done..].
  destruct (res st1) as [r|] eqn:Er; cbn [mbind outcome_bind] in Hg; [|done].
  injection Hg as <- <- <- _.
  set (P := λ st : Locals, ∃ t mix m w0,
              res st = Some (predict model t mix m w0).1).
  assert (P st1) as (t & mix & m & w3 & Hres).
  { eapply (while_loop_after_pass pow (λ _, True) P);
      [|exact I| |exact El]; [|cbn; lia].
    intros st0 wa st2 wb _ Hb. split; [done|]. by eapply loop_body_res. }
  exists r, t, mix, m, w3. rewrite Er in Hres. injection Hres as ->. done.
Qed.

Lemma run_groups_length fuel self (k : nat) groups df res_prev trace w df'
    trace' w' :
  run_groups pow fuel self groups df res_prev trace w = Ok (df', trace', w') →
  res_prev = None ∨ 0 ≤ n_test_reversals self →
  Forall (λ g : Group, gives_outputs k g.2.1) groups →
  length df' = (length df + k * length groups)%nat.
Proof.
  revert df res_prev trace w.
  induction groups as [|g groups IH]; intros df res_prev trace w Hrun Hprev Hk.
  - cbn in Hrun. injection Hrun as <- _ _. simpl. lia.
  - apply Forall_cons in Hk as [Hg Hk]. cbn [run_groups] in Hrun.
    destruct (run_group _ _ _ _ _ _ _) as [[[[df1 st] srt] w1]| |] eqn:Eg;
      cbn [mbind outcome_bind] in Hrun; [|done..].
    pose proof (run_group_effect _ _ _ _ _ _ _ _ _ _ _ Eg Hprev) as (_ & Hn & _).
    rewrite (IH _ _ _ _ Hrun (or_intror Hn) Hk).
    destruct g as [[[i_target target0] params] [model [pred_key threshold]]].
    destruct (run_group_rows _ _ _ _ _ _ _ _ _ _ _ _ _ _ _ Eg Hprev)
      as (r & t & mix & m & w0 & _ & Hr & ->).
    destruct (append_results_rows (base self) df r model (snr st) i_target params
                [("SRT"%string, CellFloat srt);
                 ("Reversals"%string, CellInt (total_reversals st))])
      as (rows & -> & Hrows & _).
    rewrite length_app, Hrows, Hr. cbn in Hg. rewrite (Hg t mix m w0).
    simpl. lia.
Qed.

(** X26: when every model gives [k] named outputs, an adaptive run that
    returns has [k] rows for each combination of a loaded sentence, a set
    of distortion parameters and a model paired with its key and
    threshold; models beyond the number of pairs, and pairs beyond the
    number of models, are left out. *)
Theorem adaptive_run_row_count fuel self n seed parallel w df (k : nat) :
  run pow np_random_seed fuel self n seed parallel w = Ok df →
  Forall (gives_outputs k) (models self) →
  length df =
    (k * (length (load_files (material self) n (np_random_seed seed w)).1
          * length (dist_params self)
          * (length (models self)
             `min` length (pred_keys_and_thresholds self))))%nat.
Proof.
  unfold run, run_traced. intros Hrun Hk.
  destruct (load_files _ _ _) as [targets w0]. cbn [fst].
  destruct (run_groups _ _ _ _ _ _ _ _) as [[[df1 trace] w1]| |] eqn:Eg;
    cbn [mbind outcome_bind] in Hrun; [|done..].
  injection Hrun as <-.
  apply (run_groups_length _ _ k) in Eg; [|by left|].
  - rewrite Eg, groups_of_length. simpl. lia.
  - apply Forall_forall. intros [[it params] [model kt]] Hg. cbn.
    unfold groups_of, product3 in Hg. rewrite list_elem_of_In in Hg.
    apply in_flat_map in Hg as (x & _ & Hg).
    apply in_flat_map in Hg as (y & _ & Hg).
    apply in_map_iff in Hg as (z & [= _ _ ->] & Hz).
    apply list_elem_of_In in Hz. apply elem_of_zip_l in Hz.
    rewrite Forall_forall in Hk. by apply Hk.
Qed.

Lemma run_groups_rows fuel self groups df res_prev trace w df' trace' w' :
  run_groups pow fuel self groups df res_prev trace w = Ok (df', trace', w') →
  res_prev = None ∨ 0 ≤ n_test_reversals self →
  Forall (λ g : Group, plain_params g.1.2) groups →
  Forall (λ row, ∃ e, e ∈ trace ∧ row_of_entry row e) df →
  Forall (λ row, ∃ e, e ∈ trace' ∧ row_of_entry row e) df'.
Proof.
  revert df res_prev trace w.
  induction groups as [|g groups IH];
    intros df res_prev trace w Hrun Hprev Hp Hdf.
  - cbn in Hrun. by injection Hrun as <- <- _.
  - apply Forall_cons in Hp as [Hg Hp]. cbn [run_groups] in Hrun.
    destruct (run_group _ _ _ _ _ _ _) as [[[[df1 st] srt] w1]| |] eqn:Eg;
      cbn [mbind outcome_bind] in Hrun; [|done..].
    pose proof (run_group_effect _ _ _ _ _ _ _ _ _ _ _ Eg Hprev) as (_ & Hn & _).
    apply (IH _ _ _ _ Hrun (or_intror Hn) Hp).
    destruct g as [[[i_target target0] params] [model [pred_key threshold]]].
    destruct (run_group_rows _ _ _ _ _ _ _ _ _ _ _ _ _ _ _ Eg Hprev)
      as (r & t & mix & m & w0 & Hres & _ & ->).
    apply Forall_forall. intros row Hrow. cbn in Hg.
    destruct (append_results_elem _ _ _ _ _ _ _ _ _ Hg Hrow)
      as [Hold|(H1 & _ & _ & H4)].
    + rewrite Forall_forall in Hdf. destruct (Hdf _ Hold) as (e & He & HR).
      exists e. split; [|done]. apply elem_of_app. by left.
    + exists (st, srt). split; [apply elem_of_app; right; by left|].
      split; [done|]. cbn. by rewrite Hres.
Qed.

(** X27: when no set of distortion parameters is a dict, every row of the
    table of an adaptive run was written from the locals some staircase of
    that run ended with: its [SNR] is the staircase's final SNR and its
    [Full Prediction] the last model output. *)
Theorem adaptive_rows_carry_exit_state fuel self n seed w df trace w' :
  run_traced pow np_random_seed fuel self n seed w = Ok (df, trace, w') →
  Forall plain_params (dist_params self) →
  Forall (λ row, ∃ st srt, (st, srt) ∈ trace
                 ∧ row !! _key_snr = Some (CellFloat (snr st))
                 ∧ row !! _key_full_pred = CellPrediction <$> res st) df.
Proof.
  unfold run_traced. intros Hrun Hp.
  destruct (load_files _ _ _) as [targets w0].
  eapply run_groups_rows in Hrun; [|by left| |done].
  - eapply Forall_impl; [exact Hrun|]. intros row ([st srt] & He & H1 & H2).
    by exists st, srt.
  - apply Forall_forall. intros [[it params] mk] Hg. cbn.
    unfold groups_of, product3 in Hg. rewrite list_elem_of_In in Hg.
    apply in_flat_map in Hg as (x & _ & Hg).
    apply in_flat_map in Hg as (y & Hy & Hg).
    apply in_map_iff in Hg as (z & [= _ -> _] & _).
    rewrite Forall_forall in Hp. apply Hp. by apply list_elem_of_In.
Qed.

End AdaptiveTable.

(** ** The staircase facts on the scripted run *)

(** The first pass of the scripted staircase. *)
Lemma update_in_bounds_witness :
  ∃ st', update (script_adaptive 6) 33.5%float hi script_init = Ok st'
         ∧ i_step script_init ≤ i_step st'
           < Z.of_nat (length (step_sizes (script_adaptive 6))).
Proof.
  apply (update_in_bounds (script_adaptive 6) 33.5%float hi script_init).
  cbn. lia.
Defined.

(** The second pass of the scripted staircase flips the direction. *)
Lemma update_changes_only_on_flip_witness :
  (last_reversal_sign script_after_hi_lo = last_reversal_sign script_after_hi
   ∧ test_reversals script_after_hi_lo = test_reversals script_after_hi
   ∧ i_step script_after_hi_lo = i_step script_after_hi)
  ∨ (last_reversal_sign script_after_hi_lo ≠ last_reversal_sign script_after_hi
     ∧ (last_reversal_sign script_after_hi_lo = 1
        ∧ (33.5 <=? lo)%float = false
        ∨ last_reversal_sign script_after_hi_lo = -1
          ∧ (33.5 <=? lo)%float = true)).
Proof.
  apply (update_changes_only_on_flip (script_adaptive 6) 33.5%float lo
           script_after_hi script_after_hi_lo).
  reflexivity.
Defined.

(** The same flip with a schedule of one step size is a test reversal. *)
Lemma single_step_schedule_counts_every_flip_witness :
  i_step single_step_after_lo = 0
  ∧ (last_reversal_sign single_step_after_lo
     ≠ last_reversal_sign script_after_hi →
     test_reversals single_step_after_lo = test_reversals script_after_hi + 1).
Proof.
  apply (single_step_schedule_counts_every_flip single_step_adaptive
           33.5%float lo script_after_hi single_step_after_lo);
    reflexivity.
Defined.

(** The scripted model has no output named [sii]. *)
Lemma missing_prediction_key_raises_witness :
  while_loop pow_series 1 (script_adaptive 6) script_model "sii" 33.5%float
    ParamsNone script_init script
  = Raise (KeyError "sii").
Proof.
  destruct (preprocessing_plain_returns pow_series (script_adaptive 6)
              (target script_init) (masker script_init) (snr script_init)
              ParamsNone eq_refl) as (t & mix & m & E).
  apply (missing_prediction_key_raises pow_series 0 (script_adaptive 6)
           script_model "sii" 33.5%float ParamsNone script_init script
           t mix m).
  - cbn. lia.
  - exact E.
  - cbn. intros H. apply list_elem_of_singleton in H. discriminate H.
Defined.

(** The scripted run with six test reversals: eleven passes. *)
Lemma total_reversals_is_pass_count_witness :
  total_reversals (script_exit 6).1
  = Z.of_nat (length (all_res (script_exit 6).1))
  ∧ n_test_reversals (script_adaptive 6) + 1
    ≤ Z.of_nat (length (all_res (script_exit 6).1)).
Proof.
  destruct (script_run_shape 6) as [w' Hrun]; [vm_compute; reflexivity|].
  revert Hrun. generalize (script_exit 6). intros [st srt] Hrun.
  exact (total_reversals_is_pass_count pow_series script_seed 50
           (script_adaptive 6) None 0 script _ _ _ st srt
           Hrun (list_elem_of_here _ _)).
Defined.

Lemma final_snr_is_one_step_past_history_witness :
  ∃ older s pred step,
    all_res (script_exit 6).1 = older ++ [(s, pred)]
    ∧ step ∈ step_sizes (script_adaptive 6)
    ∧ (snr (script_exit 6).1 = (s - step)%float
       ∨ snr (script_exit 6).1 = (s + step)%float).
Proof.
  destruct (script_run_shape 6) as [w' Hrun]; [vm_compute; reflexivity|].
  revert Hrun. generalize (script_exit 6). intros [st srt] Hrun.
  exact (final_snr_is_one_step_past_history pow_series script_seed 50
           (script_adaptive 6) None 0 script _ _ _ st srt
           Hrun (list_elem_of_here _ _)).
Defined.

Lemma step_index_valid_at_exit_witness :
  0 ≤ i_step (script_exit 6).1
  < Z.of_nat (length (step_sizes (script_adaptive 6))).
Proof.
  destruct (script_run_shape 6) as [w' Hrun]; [vm_compute; reflexivity|].
  revert Hrun. generalize (script_exit 6). intros [st srt] Hrun.
  exact (step_index_valid_at_exit pow_series script_seed 50
           (script_adaptive 6) None 0 script _ _ _ st srt
           Hrun (list_elem_of_here _ _)).
Defined.

(** The scripted run with no test reversals asked for. *)
Lemma srt_with_no_test_reversals_is_mean_of_history_witness :
  (script_exit 0).2 = np_mean (map fst (all_res (script_exit 0).1)).
Proof.
  destruct (script_run_shape 0) as [w' Hrun]; [vm_compute; reflexivity|].
  revert Hrun. generalize (script_exit 0). intros [st srt] Hrun.
  exact (srt_with_no_test_reversals_is_mean_of_history pow_series script_seed
           50 (script_adaptive 0) None 0 script _ _ _ st srt
           Hrun (list_elem_of_here _ _) eq_refl).
Defined.

(** The scripted run: one sentence, one set of parameters, one model. *)
Lemma adaptive_run_row_count_witness :
  length [script_row 6] =
    (1 * (length (load_files (material (script_adaptive 6)) None
                    (script_seed 0 script)).1
          * length (dist_params (script_adaptive 6))
          * (length (models (script_adaptive 6))
             `min` length (pred_keys_and_thresholds (script_adaptive 6)))))%nat.
Proof.
  destruct (script_run_shape 6) as [w' Hrun]; [vm_compute; reflexivity|].
  apply (adaptive_run_row_count pow_series script_seed 50 (script_adaptive 6)
           None 0 false script [script_row 6] 1).
  - unfold run. rewrite Hrun. reflexivity.
  - apply Forall_singleton. intros t mix m w. by destruct w.
Defined.

Lemma adaptive_rows_carry_exit_state_witness :
  Forall (λ row : gmap string cell,
            ∃ st srt, (st, srt) ∈ [script_exit 6]
              ∧ row !! _key_snr = Some (CellFloat (snr st))
              ∧ row !! _key_full_pred = CellPrediction <$> res st)
    [script_row 6].
Proof.
  destruct (script_run_shape 6) as [w' Hrun]; [vm_compute; reflexivity|].
  apply (adaptive_rows_carry_exit_state pow_series script_seed 50
           (script_adaptive 6) None 0 script [script_row 6] [script_exit 6] w'
           Hrun).
  apply Forall_singleton. intros kw. discriminate.
Defined.
